(** * Part 6 of symbolic_discovery.py: the brute-force constant-relation search

    The script's last part scans every operator of [operations] over the
    entries of [constants_db], evaluates each candidate expression
    numerically, prints the candidates that come within [tolerance] of the
    entry named TARGET and keeps the closest one in [best_match].

    The loops, the best-match update and the final report are embedded from
    the source.  SymPy itself (symbolic construction, [evalf], comparison of
    numbers) is a library the script calls: it enters as the interface
    [Numeric], and the exact real-number reading of it is the instance
    [RealNumeric]. *)

From Stdlib Require Import List String Bool Reals Lra Lia.
Import ListNotations.
Local Open Scope string_scope.
Local Open Scope list_scope.

(** ** Exceptions and the result monad *)

Inductive Exn : Type :=
| KeyError        (* constants_db['TARGET'] on a table without that key *)
| AttributeError. (* best_match['expr'].evalf when the expression is None *)

Inductive Result (A : Type) : Type :=
| Ok (a : A)
| Raise (e : Exn).

Arguments Ok {A} a.
Arguments Raise {A} e.

Definition bind {A B : Type} (m : Result A) (k : A -> Result B) : Result B :=
  match m with
  | Ok a => k a
  | Raise e => Raise e
  end.

Notation "x <- m ;; k" := (bind m (fun x => k))
  (at level 61, m at next level, right associativity).

(** ** The numeric library

    What the search needs from SymPy: numeric evaluation of the four
    operators, [abs (a - b)], the comparison [a < b], the comparison
    [a < float('inf')] and the literal [1e-3].  The comparisons are total
    here; SymPy raises TypeError when an operand of [<] is NaN, so a table
    whose evaluation produces NaN is outside this interface. *)

Class Numeric : Type := {
  num : Type;
  evalf_Add : num -> num -> num;
  evalf_Mul : num -> num -> num;
  evalf_Pow : num -> num -> num;
  evalf_sqrt : num -> num;
  abs_sub : num -> num -> num;
  num_lt : num -> num -> bool;
  lt_inf : num -> bool;
  tolerance : num
}.

(** ** Operators and expressions *)

Inductive BinaryOp : Type := Add | Mul | Pow.

(** [operations = [sp.Add, sp.Mul, sp.Pow, sp.sqrt]]: three binary
    constructors and the unary [sp.sqrt]. *)
Inductive Operation : Type :=
| Binary (b : BinaryOp)
| sqrt.

Definition operations : list Operation :=
  [Binary Add; Binary Mul; Binary Pow; sqrt].

Definition op_symbols : list string := ["+"; "*"; "**"; "sqrt"].

(** The symbolic expression a loop iteration builds: [op(Symbol(c_name))]
    with [op == sp.sqrt], or [op(Symbol(c1_name), Symbol(c2_name))].  The
    constructor call is recorded as written; SymPy's rewriting of it (for
    instance of [Mul(x, x)] to [x**2]) does not change its value. *)
Inductive Expr : Type :=
| Sqrt (c : string)
| Bin (op : BinaryOp) (c1 c2 : string).

Definition TARGET : string := "TARGET".

Section Search.

Context {N : Numeric}.

(** [constants_db]: a dict, iterated in insertion order. *)
Definition Table : Type := list (string * num).

(** [constants_db[key]] *)
Fixpoint getitem (constants_db : Table) (key : string) : Result num :=
  match constants_db with
  | [] => Raise KeyError
  | (k, v) :: rest => if String.eqb k key then Ok v else getitem rest key
  end.

(** [itertools.combinations_with_replacement(items, 2)]: the pairs
    [(items[i], items[j])] with [i <= j], in lexicographic index order. *)
Fixpoint combinations_with_replacement_2 {A : Type} (items : list A)
  : list (A * A) :=
  match items with
  | [] => []
  | x :: rest => map (pair x) (x :: rest) ++ combinations_with_replacement_2 rest
  end.

(** A candidate as a loop iteration holds it: the expression's operator and
    the (name, value) pairs the iteration substitutes into it. *)
Inductive Candidate : Type :=
| Cand1 (c_name : string) (c_val : num)
| Cand2 (op : BinaryOp) (c1_name : string) (c1_val : num)
        (c2_name : string) (c2_val : num).

Definition symbolic_expr (cand : Candidate) : Expr :=
  match cand with
  | Cand1 c_name _ => Sqrt c_name
  | Cand2 op c1_name _ c2_name _ => Bin op c1_name c2_name
  end.

Definition evalf_op (op : BinaryOp) : num -> num -> num :=
  match op with
  | Add => evalf_Add
  | Mul => evalf_Mul
  | Pow => evalf_Pow
  end.

(** [symbolic_expr.evalf(subs={...})] *)
Definition numeric_val (cand : Candidate) : num :=
  match cand with
  | Cand1 _ c_val => evalf_sqrt c_val
  | Cand2 op _ c1_val _ c2_val => evalf_op op c1_val c2_val
  end.

(** Operand names of a candidate. *)
Definition operands (cand : Candidate) : list string :=
  match cand with
  | Cand1 c_name _ => [c_name]
  | Cand2 _ c1_name _ c2_name _ => [c1_name; c2_name]
  end.

(** *** The loop skeleton (lines 226-262), abstract in the loop body *)

Section Loops.

Context {St : Type} (body : Candidate -> St -> Result St).

(** Lines 228-243: [symbolic_expr] is [None] unless [op == sp.sqrt]. *)
Fixpoint unary_loop (op : Operation) (items : Table) (st : St) : Result St :=
  match items with
  | [] => Ok st
  | (c_name, c_val) :: rest =>
      if String.eqb c_name TARGET then unary_loop op rest st
      else
        match op with
        | sqrt => st' <- body (Cand1 c_name c_val) st ;; unary_loop op rest st'
        | Binary _ => unary_loop op rest st
        end
  end.

(** Lines 247-262, over the pairs produced by the iterator. *)
Fixpoint pairs_loop (op : BinaryOp)
    (pairs : list ((string * num) * (string * num))) (st : St) : Result St :=
  match pairs with
  | [] => Ok st
  | ((c1_name, c1_val), (c2_name, c2_val)) :: rest =>
      if String.eqb c1_name TARGET || String.eqb c2_name TARGET
      then pairs_loop op rest st
      else st' <- body (Cand2 op c1_name c1_val c2_name c2_val) st ;;
           pairs_loop op rest st'
  end.

(** Line 246: [if op in [sp.Add, sp.Mul, sp.Pow]]. *)
Definition binary_loop (op : Operation) (items : Table) (st : St) : Result St :=
  match op with
  | Binary b => pairs_loop b (combinations_with_replacement_2 items) st
  | sqrt => Ok st
  end.

(** Line 226: [for op, op_symbol in zip(operations, op_symbols)]. *)
Fixpoint operations_loop (ops : list (Operation * string)) (items : Table)
    (st : St) : Result St :=
  match ops with
  | [] => Ok st
  | (op, _) :: rest =>
      st1 <- unary_loop op items st ;;
      st2 <- binary_loop op items st1 ;;
      operations_loop rest items st2
  end.

Definition discovery_loop (items : Table) (st : St) : Result St :=
  operations_loop (combine operations op_symbols) items st.

End Loops.

(** *** The loop body (lines 235-243 and 254-262) *)

(** [best_match['error']]: [float('inf')] until a candidate replaces it. *)
Inductive Err : Type :=
| PosInf
| Fin (e : num).

Record BestMatch : Type := {
  expr : option Expr;
  error : Err
}.

(** [error < best_match['error']] *)
Definition lt_best (e : num) (b : Err) : bool :=
  match b with
  | PosInf => lt_inf e
  | Fin e' => num_lt e e'
  end.

(** Lines of standard output. *)
Inductive Line : Type :=
| PotentialDiscovery (e : Expr) (err : num)
| SearchComplete
| BestExpression (e : option Expr)
| EvaluatesTo (v : num)
| ComparedTo (target : num) (err : Err).

Definition State : Type := (BestMatch * list Line)%type.

Definition abs_error (constants_db : Table) (cand : Candidate) : Result num :=
  target <- getitem constants_db TARGET ;;
  Ok (abs_sub (numeric_val cand) target).

Definition check (constants_db : Table) (cand : Candidate) (st : State)
  : Result State :=
  let '(best_match, stdout) := st in
  err <- abs_error constants_db cand ;;
  let stdout' :=
    if num_lt err tolerance
    then stdout ++ [PotentialDiscovery (symbolic_expr cand) err]
    else stdout in
  let best_match' :=
    if lt_best err (error best_match)
    then {| expr := Some (symbolic_expr cand); error := Fin err |}
    else best_match in
  Ok (best_match', stdout').

(** Line 222. *)
Definition initial_best_match : BestMatch :=
  {| expr := None; error := PosInf |}.

(** Lines 222-262: the search. *)
Definition search (constants_db : Table) : Result State :=
  discovery_loop (check constants_db) constants_db (initial_best_match, []).

(** The candidates the loops visit, in order: the skeleton run with a body
    that only records its argument. *)
Definition record_candidate (cand : Candidate) (seen : list Candidate)
  : Result (list Candidate) := Ok (seen ++ [cand]).

Definition enumerate (constants_db : Table) : list Candidate :=
  match discovery_loop record_candidate constants_db [] with
  | Ok seen => seen
  | Raise _ => []
  end.

(** *** The report (lines 265-268) *)

(** [{k: v for k, v in constants_db.items() if Symbol(k) in free_symbols}] *)
Definition free_symbols (e : Expr) : list string :=
  match e with
  | Sqrt c => [c]
  | Bin _ c1 c2 => [c1; c2]
  end.

Definition restrict (constants_db : Table) (e : Expr) : Table :=
  filter (fun kv => existsb (String.eqb (fst kv)) (free_symbols e)) constants_db.

(** [expr.evalf(subs=...)] on a substitution that binds every symbol. *)
Definition evalf (e : Expr) (subs : Table) : Result num :=
  match e with
  | Sqrt c => v <- getitem subs c ;; Ok (evalf_sqrt v)
  | Bin op c1 c2 =>
      v1 <- getitem subs c1 ;; v2 <- getitem subs c2 ;; Ok (evalf_op op v1 v2)
  end.

(** What a run leaves behind: the text printed and, if it stopped on an
    exception, that exception. *)
Record Outcome : Type := {
  stdout : list Line;
  raised : option Exn;
  best : option BestMatch
}.

Definition report (constants_db : Table) (st : State) : Outcome :=
  let '(best_match, out) := st in
  let out1 := out ++ [SearchComplete; BestExpression (expr best_match)] in
  match expr best_match with
  | None => {| stdout := out1; raised := Some AttributeError;
               best := Some best_match |}
  | Some e =>
      match evalf e (restrict constants_db e) with
      | Raise x => {| stdout := out1; raised := Some x; best := Some best_match |}
      | Ok v =>
          match getitem constants_db TARGET with
          | Raise x => {| stdout := out1 ++ [EvaluatesTo v]; raised := Some x;
                          best := Some best_match |}
          | Ok target =>
              {| stdout := out1 ++ [EvaluatesTo v;
                                    ComparedTo target (error best_match)];
                 raised := None; best := Some best_match |}
          end
      end
  end.

Definition main (constants_db : Table) : Outcome :=
  match search constants_db with
  | Raise x => {| stdout := []; raised := Some x; best := None |}
  | Ok st => report constants_db st
  end.

(** *** The candidate space, read off the loops *)

(** The entries that survive [if c_name == 'TARGET': continue]. *)
Definition non_target (items : Table) : Table :=
  filter (fun kv => negb (String.eqb (fst kv) TARGET)) items.

Definition unary_candidates (items : Table) : list Candidate :=
  map (fun kv => Cand1 (fst kv) (snd kv)) (non_target items).

(** The test of line 248 on a pair. *)
Definition keeps (p : (string * num) * (string * num)) : bool :=
  negb (String.eqb (fst (fst p)) TARGET || String.eqb (fst (snd p)) TARGET).

Definition cand2_of (op : BinaryOp) (p : (string * num) * (string * num))
  : Candidate :=
  Cand2 op (fst (fst p)) (snd (fst p)) (fst (snd p)) (snd (snd p)).

Definition binary_candidates (op : BinaryOp) (items : Table) : list Candidate :=
  map (cand2_of op) (combinations_with_replacement_2 (non_target items)).

Definition candidates_of (op : Operation) (items : Table) : list Candidate :=
  match op with
  | Binary b => binary_candidates b items
  | sqrt => unary_candidates items
  end.

Definition candidates (items : Table) : list Candidate :=
  flat_map (fun op => candidates_of op items) operations.

(** Running a loop body over a list of candidates. *)
Fixpoint run_body {St : Type} (body : Candidate -> St -> Result St)
    (cands : list Candidate) (st : St) : Result St :=
  match cands with
  | [] => Ok st
  | cand :: rest => st' <- body cand st ;; run_body body rest st'
  end.

(** The loop body once [constants_db['TARGET']] is known to be [target]. *)
Definition err_of (target : num) (cand : Candidate) : num :=
  abs_sub (numeric_val cand) target.

Definition discovery_line (target : num) (cand : Candidate) : list Line :=
  if num_lt (err_of target cand) tolerance
  then [PotentialDiscovery (symbolic_expr cand) (err_of target cand)]
  else [].

(** The record lines 242-243 write for a candidate. *)
Definition record_of (target : num) (cand : Candidate) : BestMatch :=
  {| expr := Some (symbolic_expr cand); error := Fin (err_of target cand) |}.

Definition update (target : num) (best_match : BestMatch) (cand : Candidate)
  : BestMatch :=
  if lt_best (err_of target cand) (error best_match)
  then record_of target cand
  else best_match.

Definition is_unary (cand : Candidate) : bool :=
  match cand with
  | Cand1 _ _ => true
  | Cand2 _ _ _ _ _ => false
  end.

(** [b <= e] for a best-match error [b] and a candidate error [e], as the
    order that [<] induces: [e] is not strictly below [b]. *)
Definition Err_le (b : Err) (e : num) : bool := negb (lt_best e b).

End Search.

Arguments Table : clear implicits.
Arguments Table {N}.

(** ** Comparison laws

    The laws of [<] on error values that the minimality and tie-break
    results rest on: a strict weak order with [float('inf')] on top. *)
Class ErrorOrder (N : Numeric) : Prop := {
  lt_irrefl : forall a : num, num_lt a a = false;
  lt_trans : forall a b c : num,
      num_lt a b = true -> num_lt b c = true -> num_lt a c = true;
  lt_cotrans : forall a b c : num,
      num_lt a b = true -> num_lt a c = true \/ num_lt c b = true;
  lt_inf_below : forall a b : num,
      num_lt a b = true -> lt_inf b = true -> lt_inf a = true;
  lt_inf_top : forall a b : num,
      lt_inf a = true -> lt_inf b = false -> num_lt a b = true
}.

(** ** Exact real arithmetic as the numeric library

    Every operation is the real function it approximates.  For positive
    operands [Rpower] and the real square root are the values SymPy
    evaluates; errors, being absolute values, are real in any case. *)

Definition Rltb (x y : R) : bool := if Rlt_dec x y then true else false.

#[export] Instance RealNumeric : Numeric := {|
  num := R;
  evalf_Add := Rplus;
  evalf_Mul := Rmult;
  evalf_Pow := Rpower;
  evalf_sqrt := R_sqrt.sqrt;
  abs_sub := fun a b => Rabs (a - b);
  num_lt := Rltb;
  lt_inf := fun _ => true;
  tolerance := 1e-3%R
|}.

(** Finite floating-point evaluation seen from the reals: arbitrary
    operations on [R], compared exactly.  [close d x y] says that [x] is
    within [d] of [y]. *)
Definition RoundedNumeric (add mul pow : R -> R -> R) (sq : R -> R)
    (dist : R -> R -> R) (tol : R) : Numeric := {|
  num := R;
  evalf_Add := add;
  evalf_Mul := mul;
  evalf_Pow := pow;
  evalf_sqrt := sq;
  abs_sub := dist;
  num_lt := Rltb;
  lt_inf := fun _ => true;
  tolerance := tol
|}.

Definition close (d x y : R) : Prop := (y - d <= x <= y + d)%R.

(** Lines 204-209. *)
Definition constants_db : @Table RealNumeric :=
  [("C1", 1.618%R); ("C2", 2.718%R); ("C3", 3.1415%R); ("TARGET", 9.869%R)].

(** The table of the scenario target = 4.0, constants {A: 2.0}. *)
Definition scenario_db : @Table RealNumeric :=
  [("A", 2%R); ("TARGET", 4%R)].

(** A table with no operand at all. *)
Definition target_only_db : @Table RealNumeric := [("TARGET", 9.869%R)].

(** A table that lacks its target entry. *)
Definition no_target_db : @Table RealNumeric := [("A", 2%R); ("B", 3%R)].

(** * Properties *)

(** ** The loops visit exactly [candidates] *)

Section LoopFacts.

Context {N : Numeric}.

Lemma run_body_app {St : Type} (body : Candidate -> St -> Result St)
    (l1 l2 : list Candidate) (st : St) :
  run_body body (l1 ++ l2) st = (st' <- run_body body l1 st ;; run_body body l2 st').
Proof.
  revert st. induction l1 as [|c l1 IH]; intros st; simpl; [reflexivity|].
  destruct (body c st) as [st'|e]; simpl; [apply IH | reflexivity].
Qed.

Lemma unary_loop_sqrt {St : Type} (body : Candidate -> St -> Result St)
    (items : Table) (st : St) :
  unary_loop body sqrt items st = run_body body (unary_candidates items) st.
Proof.
  revert st. unfold unary_candidates, non_target.
  induction items as [|[c_name c_val] rest IH]; intros st; simpl; [reflexivity|].
  destruct (String.eqb c_name TARGET); simpl; [apply IH|].
  destruct (body (Cand1 c_name c_val) st); simpl; [apply IH | reflexivity].
Qed.

Lemma unary_loop_binary {St : Type} (body : Candidate -> St -> Result St)
    (b : BinaryOp) (items : Table) (st : St) :
  unary_loop body (Binary b) items st = Ok st.
Proof.
  induction items as [|[c_name c_val] rest IH]; simpl; [reflexivity|].
  destruct (String.eqb c_name TARGET); exact IH.
Qed.

Lemma pairs_loop_run {St : Type} (body : Candidate -> St -> Result St)
    (op : BinaryOp) (pairs : list ((string * num) * (string * num))) (st : St) :
  pairs_loop body op pairs st
  = run_body body (map (cand2_of op) (filter keeps pairs)) st.
Proof.
  revert st.
  induction pairs as [|[[c1 v1] [c2 v2]] rest IH]; intros st; simpl;
    [reflexivity|].
  unfold keeps at 1; simpl.
  destruct (String.eqb c1 TARGET || String.eqb c2 TARGET); simpl; [apply IH|].
  unfold cand2_of at 1; simpl.
  destruct (body _ st); simpl; [apply IH | reflexivity].
Qed.

Lemma filter_keeps_row (x : string * num) (l : Table) :
  filter keeps (map (pair x) l)
  = if String.eqb (fst x) TARGET then [] else map (pair x) (non_target l).
Proof.
  unfold non_target.
  induction l as [|y l IH]; simpl.
  - destruct (String.eqb (fst x) TARGET); reflexivity.
  - unfold keeps at 1; simpl. rewrite IH.
    destruct (String.eqb (fst x) TARGET); simpl; [reflexivity|].
    destruct (String.eqb (fst y) TARGET); reflexivity.
Qed.

(** Skipping the pairs that mention TARGET leaves the pairs of the
    non-target entries. *)
Lemma filter_keeps_combinations (items : Table) :
  filter keeps (combinations_with_replacement_2 items)
  = combinations_with_replacement_2 (non_target items).
Proof.
  induction items as [|x rest IH]; [reflexivity|].
  change (combinations_with_replacement_2 (x :: rest))
    with (map (pair x) (x :: rest) ++ combinations_with_replacement_2 rest).
  rewrite filter_app, filter_keeps_row, IH.
  unfold non_target; simpl.
  destruct (String.eqb (fst x) TARGET); reflexivity.
Qed.

Lemma binary_loop_run {St : Type} (body : Candidate -> St -> Result St)
    (b : BinaryOp) (items : Table) (st : St) :
  binary_loop body (Binary b) items st
  = run_body body (binary_candidates b items) st.
Proof.
  unfold binary_loop, binary_candidates.
  rewrite pairs_loop_run, filter_keeps_combinations. reflexivity.
Qed.

Lemma operations_loop_run {St : Type} (body : Candidate -> St -> Result St)
    (ops : list (Operation * string)) (items : Table) (st : St) :
  operations_loop body ops items st
  = run_body body (flat_map (fun op => candidates_of op items) (map fst ops)) st.
Proof.
  revert st. induction ops as [|[op sym] ops IH]; intros st; [reflexivity|].
  simpl. rewrite run_body_app. destruct op as [b|]; simpl.
  - rewrite unary_loop_binary; simpl.
    change (pairs_loop body b (combinations_with_replacement_2 items) st)
      with (binary_loop body (Binary b) items st).
    rewrite binary_loop_run.
    destruct (run_body body (binary_candidates b items) st); simpl;
      [apply IH | reflexivity].
  - rewrite unary_loop_sqrt.
    destruct (run_body body (unary_candidates items) st); simpl;
      [apply IH | reflexivity].
Qed.

Lemma discovery_loop_run {St : Type} (body : Candidate -> St -> Result St)
    (items : Table) (st : St) :
  discovery_loop body items st = run_body body (candidates items) st.
Proof. unfold discovery_loop. rewrite operations_loop_run. reflexivity. Qed.

Lemma run_record (cands seen : list Candidate) :
  run_body record_candidate cands seen = Ok (seen ++ cands).
Proof.
  revert seen. induction cands as [|c cands IH]; intros seen; simpl.
  - rewrite app_nil_r. reflexivity.
  - rewrite IH, <- app_assoc. reflexivity.
Qed.

Lemma enumerate_candidates (items : Table) : enumerate items = candidates items.
Proof.
  unfold enumerate. rewrite discovery_loop_run, run_record. reflexivity.
Qed.

Lemma enumerate_order (items : Table) :
  enumerate items
  = binary_candidates Add items ++ binary_candidates Mul items
    ++ binary_candidates Pow items ++ unary_candidates items.
Proof.
  rewrite enumerate_candidates. unfold candidates, operations; simpl.
  rewrite app_nil_r. reflexivity.
Qed.

(** The search is the loop body run over the enumeration. *)
Lemma search_run (constants_db : Table) :
  search constants_db
  = run_body (check constants_db) (enumerate constants_db)
             (initial_best_match, []).
Proof. unfold search. rewrite discovery_loop_run, enumerate_candidates. reflexivity. Qed.

Lemma check_target (constants_db : Table) (target : num) (cand : Candidate)
    (best_match : BestMatch) (out : list Line) :
  getitem constants_db TARGET = Ok target ->
  check constants_db cand (best_match, out)
  = Ok (update target best_match cand, out ++ discovery_line target cand).
Proof.
  intros H. unfold check, abs_error, update, discovery_line, err_of.
  rewrite H; simpl.
  destruct (num_lt _ tolerance); [reflexivity | rewrite app_nil_r; reflexivity].
Qed.

Lemma run_check_target (constants_db : Table) (target : num)
    (cands : list Candidate) (best_match : BestMatch) (out : list Line) :
  getitem constants_db TARGET = Ok target ->
  run_body (check constants_db) cands (best_match, out)
  = Ok (fold_left (update target) cands best_match,
        out ++ flat_map (discovery_line target) cands).
Proof.
  intros H. revert best_match out.
  induction cands as [|c cands IH]; intros best_match out; cbn [run_body].
  - simpl. rewrite app_nil_r. reflexivity.
  - rewrite (check_target _ _ _ _ _ H). cbn [bind fold_left flat_map].
    rewrite IH, <- app_assoc. reflexivity.
Qed.

(** With a TARGET entry the search never raises: it folds [update] over the
    enumeration and prints the discovery lines in enumeration order. *)
Lemma search_target (constants_db : Table) (target : num) :
  getitem constants_db TARGET = Ok target ->
  search constants_db
  = Ok (fold_left (update target) (enumerate constants_db) initial_best_match,
        flat_map (discovery_line target) (enumerate constants_db)).
Proof.
  intros H. rewrite search_run, (run_check_target _ _ _ _ _ H). reflexivity.
Qed.

Lemma getitem_raises (constants_db : Table) (key : string) (e : Exn) :
  getitem constants_db key = Raise e -> e = KeyError.
Proof.
  induction constants_db as [|[k v] rest IH]; simpl.
  - congruence.
  - destruct (String.eqb k key); [discriminate | exact IH].
Qed.

(** Without a TARGET entry the first candidate evaluated raises KeyError. *)
Lemma search_no_target (constants_db : Table) (e : Exn) :
  getitem constants_db TARGET = Raise e ->
  search constants_db
  = match enumerate constants_db with
    | [] => Ok (initial_best_match, [])
    | _ :: _ => Raise KeyError
    end.
Proof.
  intros H. rewrite search_run.
  destruct (enumerate constants_db) as [|c l]; [reflexivity|].
  cbn [run_body]. unfold check, abs_error. rewrite H.
  rewrite (getitem_raises _ _ _ H). reflexivity.
Qed.

End LoopFacts.

(** ** Shape of the candidate space *)

Section CandidateSpace.

Context {N : Numeric}.

Lemma non_target_name (items : Table) (kv : string * num) :
  In kv (non_target items) -> fst kv <> TARGET.
Proof.
  unfold non_target. rewrite filter_In. intros [_ H] E.
  rewrite E, String.eqb_refl in H. discriminate.
Qed.

Lemma non_target_idempotent (items : Table) :
  non_target (non_target items) = non_target items.
Proof.
  unfold non_target. induction items as [|x rest IH]; simpl; [reflexivity|].
  destruct (String.eqb (fst x) TARGET) eqn:E; simpl; [exact IH|].
  rewrite E; simpl. f_equal. exact IH.
Qed.

(** Membership in the iterator's output: [x] sits at some position and [y]
    at the same or a later one. *)
Lemma in_combinations {A : Type} (x y : A) (l : list A) :
  In (x, y) (combinations_with_replacement_2 l)
  <-> exists l1 l2, l = l1 ++ x :: l2 /\ In y (x :: l2).
Proof.
  induction l as [|a l IH].
  - simpl. split; [tauto|]. intros (l1 & l2 & E & _).
    destruct l1; discriminate.
  - change (combinations_with_replacement_2 (a :: l))
      with (map (pair a) (a :: l) ++ combinations_with_replacement_2 l).
    rewrite in_app_iff, in_map_iff, IH. split.
    + intros [(z & E & Hz) | (l1 & l2 & E & Hy)].
      * inversion E; subst. exists [], l. split; [reflexivity | exact Hz].
      * exists (a :: l1), l2. split; [simpl; congruence | exact Hy].
    + intros (l1 & l2 & E & Hy). destruct l1 as [|b l1]; simpl in E.
      * inversion E; subst. left. exists y. split; [reflexivity | exact Hy].
      * inversion E; subst. right. exists l1, l2. split; [reflexivity | exact Hy].
Qed.

Lemma candidates_non_target (items : Table) :
  candidates (non_target items) = candidates items.
Proof.
  unfold candidates, operations; simpl.
  unfold binary_candidates, unary_candidates.
  rewrite non_target_idempotent. reflexivity.
Qed.

Lemma in_candidates (items : Table) (cand : Candidate) :
  In cand (candidates items) ->
  match cand with
  | Cand1 c v => In (c, v) (non_target items)
  | Cand2 _ c1 v1 c2 v2 =>
      In ((c1, v1), (c2, v2)) (combinations_with_replacement_2 (non_target items))
  end.
Proof.
  unfold candidates, operations; simpl.
  unfold binary_candidates, unary_candidates.
  rewrite !in_app_iff, !in_map_iff.
  intros [H | [H | [H | [H | []]]]]; destruct H as (p & E & Hp); subst cand;
    simpl.
  1-3: destruct p as [[c1 v1] [c2 v2]]; exact Hp.
  destruct p as [c v]; exact Hp.
Qed.

End CandidateSpace.

(** ** The best-match record along a scan *)

Section BestMatchFacts.

Context {N : Numeric}.

Lemma fold_update_stable (target : num) (cands : list Candidate)
    (best_match : BestMatch) :
  (forall c, In c cands ->
             lt_best (err_of target c) (error best_match) = false) ->
  fold_left (update target) cands best_match = best_match.
Proof.
  induction cands as [|c cands IH]; intros H; simpl; [reflexivity|].
  unfold update at 2. rewrite (H c (or_introl eq_refl)).
  apply IH. intros c' Hc'. apply H. right. exact Hc'.
Qed.

(** Scanning leaves the record as it was or at one of the candidates. *)
Lemma fold_update_cases (target : num) (cands : list Candidate)
    (best_match : BestMatch) :
  fold_left (update target) cands best_match = best_match
  \/ exists c, In c cands
               /\ fold_left (update target) cands best_match = record_of target c.
Proof.
  revert best_match. induction cands as [|c cands IH]; intros best_match; simpl.
  - left. reflexivity.
  - destruct (IH (update target best_match c)) as [E | (c' & Hc' & E)].
    + rewrite E. unfold update.
      destruct (lt_best _ _); [right | left; reflexivity].
      exists c. split; [left; reflexivity | reflexivity].
    + right. exists c'. split; [right; exact Hc' | exact E].
Qed.

(** A candidate that beats everything before it, is below [float('inf')]
    and is not beaten afterwards is the final best match. *)
Lemma fold_update_first_min (target : num) (pre post : list Candidate)
    (c : Candidate) :
  lt_inf (err_of target c) = true ->
  (forall c', In c' pre -> num_lt (err_of target c) (err_of target c') = true) ->
  (forall c', In c' post -> num_lt (err_of target c') (err_of target c) = false) ->
  fold_left (update target) (pre ++ c :: post) initial_best_match
  = record_of target c.
Proof.
  intros Hinf Hpre Hpost. rewrite fold_left_app. simpl.
  assert (Hc : update target
                 (fold_left (update target) pre initial_best_match) c
               = record_of target c).
  { destruct (fold_update_cases target pre initial_best_match)
      as [E | (c' & Hc' & E)]; rewrite E; unfold update; simpl.
    - rewrite Hinf. reflexivity.
    - rewrite (Hpre c' Hc'). reflexivity. }
  rewrite Hc. apply fold_update_stable. exact Hpost.
Qed.

(** Under the comparison laws the final record is the initial one, when no
    candidate is below [float('inf')], or else the first candidate of
    minimum error. *)
Lemma fold_update_characterised `{!ErrorOrder N} (target : num)
    (cands : list Candidate) :
  (fold_left (update target) cands initial_best_match = initial_best_match
   /\ forall c, In c cands -> lt_inf (err_of target c) = false)
  \/ exists pre c post,
       cands = pre ++ c :: post
       /\ fold_left (update target) cands initial_best_match = record_of target c
       /\ lt_inf (err_of target c) = true
       /\ (forall c', In c' pre ->
                      num_lt (err_of target c) (err_of target c') = true)
       /\ (forall c', In c' post ->
                      num_lt (err_of target c') (err_of target c) = false).
Proof.
  induction cands as [|x l IH] using rev_ind.
  - left. split; [reflexivity | intros c []].
  - rewrite fold_left_app. simpl.
    destruct IH as [[E Hall] | (pre & c & post & El & E & Hinf & Hpre & Hpost)].
    + rewrite E. unfold update; simpl.
      destruct (lt_inf (err_of target x)) eqn:Hx.
      * right. exists l, x, []. repeat split; try assumption.
        -- intros c' Hc'. apply lt_inf_top; [exact Hx | apply Hall; exact Hc'].
        -- intros c' [].
      * left. split; [reflexivity|]. intros c Hc. apply in_app_iff in Hc.
        destruct Hc as [Hc | [<- | []]]; [apply Hall; exact Hc | exact Hx].
    + rewrite E. unfold update; simpl.
      destruct (num_lt (err_of target x) (err_of target c)) eqn:Hx.
      * right. exists l, x, []. repeat split; try reflexivity.
        -- apply (lt_inf_below _ _ Hx Hinf).
        -- intros c' Hc'. rewrite El in Hc'. apply in_app_iff in Hc'.
           destruct Hc' as [Hc' | [<- | Hc']].
           ++ apply (lt_trans _ _ _ Hx). apply Hpre. exact Hc'.
           ++ exact Hx.
           ++ destruct (lt_cotrans _ _ (err_of target c') Hx) as [H | H];
                [exact H | rewrite (Hpost c' Hc') in H; discriminate].
        -- intros c' [].
      * right. exists pre, c, (post ++ [x]). repeat split; try assumption.
        -- rewrite El, <- app_assoc. reflexivity.
        -- intros c' Hc'. apply in_app_iff in Hc'.
           destruct Hc' as [Hc' | [<- | []]]; [apply Hpost; exact Hc' | exact Hx].
Qed.

Lemma lt_asym `{!ErrorOrder N} (a b : num) :
  num_lt a b = true -> num_lt b a = false.
Proof.
  intros H. destruct (num_lt b a) eqn:E; [|reflexivity].
  rewrite <- (lt_irrefl a). symmetry. exact (lt_trans _ _ _ H E).
Qed.

End BestMatchFacts.

(** ** Results that hold for every numeric library *)

Section Claims.

Context {N : Numeric}.

(** C3, as the code has it: with exactly one non-target entry [a] the scan
    visits the three self-pairings [a + a], [a * a], [a ** a] and then
    [sqrt(a)]; no candidate pairs two different constants. *)
Theorem single_operand_enumeration (constants_db : Table) (a : string) (v : num) :
  non_target constants_db = [(a, v)] ->
  enumerate constants_db
  = [Cand2 Add a v a v; Cand2 Mul a v a v; Cand2 Pow a v a v; Cand1 a v].
Proof.
  intros H. rewrite enumerate_candidates.
  unfold candidates, operations; simpl.
  unfold binary_candidates, unary_candidates. rewrite H. reflexivity.
Qed.

Lemma no_operand_no_candidate (constants_db : Table) :
  non_target constants_db = [] -> enumerate constants_db = [].
Proof.
  intros H. rewrite enumerate_candidates.
  unfold candidates, operations; simpl.
  unfold binary_candidates, unary_candidates. rewrite H. reflexivity.
Qed.

(** C4, on the code: when no entry other than the target exists, the scan
    ends with the initial record, the report prints the expression [None]
    and line 267 then raises AttributeError. *)
Theorem empty_operand_set_raises (constants_db : Table) :
  non_target constants_db = [] ->
  main constants_db
  = {| stdout := [SearchComplete; BestExpression None];
       raised := Some AttributeError;
       best := Some initial_best_match |}.
Proof.
  intros H. unfold main.
  assert (E : search constants_db = Ok (initial_best_match, [])).
  { destruct (getitem constants_db TARGET) as [target|e] eqn:G.
    - rewrite (search_target _ _ G), (no_operand_no_candidate _ H). reflexivity.
    - rewrite (search_no_target _ _ G), (no_operand_no_candidate _ H).
      reflexivity. }
  rewrite E. reflexivity.
Qed.

(** C5: with a target entry the search returns, and the error of its final
    best-match record is less than or equal to the error of every candidate
    the scan enumerated. *)
Theorem best_match_is_global_minimum `{!ErrorOrder N}
    (constants_db : Table) (target : num) :
  getitem constants_db TARGET = Ok target ->
  exists best_match out,
    search constants_db = Ok (best_match, out)
    /\ forall cand, In cand (enumerate constants_db) ->
                    Err_le (error best_match) (err_of target cand) = true.
Proof.
  intros G. rewrite (search_target _ _ G).
  eexists _, _. split; [reflexivity|].
  intros cand Hc. unfold Err_le. apply negb_true_iff.
  destruct (fold_update_characterised target (enumerate constants_db))
    as [[E Hall] | (pre & c & post & El & E & Hinf & Hpre & Hpost)];
    rewrite E; simpl.
  - apply Hall. exact Hc.
  - rewrite El in Hc. apply in_app_iff in Hc.
    destruct Hc as [Hc | [<- | Hc]].
    + apply lt_asym. apply Hpre. exact Hc.
    + apply lt_irrefl.
    + apply Hpost. exact Hc.
Qed.

(** C6: the candidates are enumerated operator by operator ([Add], [Mul],
    [Pow] over the pairs of the table in insertion order, then [sqrt]); with
    a target entry the search returns, and its final best match is the
    first candidate, in that order, of minimum error: every candidate before
    it has a strictly larger error and no candidate after it has a smaller
    one, so among tied candidates the earliest wins.  The record stays at
    its initial value only when no candidate's error is below
    [float('inf')]. *)
Theorem best_match_is_first_minimum `{!ErrorOrder N}
    (constants_db : Table) (target : num) :
  getitem constants_db TARGET = Ok target ->
  enumerate constants_db
  = binary_candidates Add constants_db ++ binary_candidates Mul constants_db
    ++ binary_candidates Pow constants_db ++ unary_candidates constants_db
  /\ exists best_match out,
    search constants_db = Ok (best_match, out)
    /\ ((best_match = initial_best_match
         /\ forall c, In c (enumerate constants_db) ->
                      lt_inf (err_of target c) = false)
        \/ exists pre cand post,
             enumerate constants_db = pre ++ cand :: post
             /\ best_match = record_of target cand
             /\ (forall c, In c pre ->
                    num_lt (err_of target cand) (err_of target c) = true)
             /\ (forall c, In c post ->
                    num_lt (err_of target c) (err_of target cand) = false)).
Proof.
  intros G. split; [apply enumerate_order|].
  rewrite (search_target _ _ G).
  eexists _, _. split; [reflexivity|].
  destruct (fold_update_characterised target (enumerate constants_db))
    as [[E Hall] | (pre & c & post & El & E & _ & Hpre & Hpost)].
  - left. split; assumption.
  - right. exists pre, c, post. repeat split; assumption.
Qed.

(** C7: whatever the best-match record holds when a candidate is evaluated,
    the body prints one "potential discovery" line for it exactly when its
    error is below [tolerance], and nothing otherwise; the lines of a whole
    scan are those of the enumerated candidates, in enumeration order. *)
Theorem discovery_reported_iff_below_tolerance
    (constants_db : Table) (target : num) :
  getitem constants_db TARGET = Ok target ->
  let line cand :=
    if num_lt (abs_sub (numeric_val cand) target) tolerance
    then [PotentialDiscovery (symbolic_expr cand)
                             (abs_sub (numeric_val cand) target)]
    else [] in
  (forall cand best_match out,
      exists best_match',
        check constants_db cand (best_match, out)
        = Ok (best_match', out ++ line cand))
  /\ exists best_match,
      search constants_db
      = Ok (best_match, flat_map line (enumerate constants_db)).
Proof.
  intros G line. split.
  - intros cand best_match out. eexists.
    rewrite (check_target _ _ _ _ _ G). reflexivity.
  - eexists. rewrite (search_target _ _ G). reflexivity.
Qed.

(** C8: no enumerated candidate has TARGET among its operands, and the
    enumeration, operand values included, is the one of the table without
    its target entry. *)
Theorem target_never_operand (constants_db : Table) (cand : Candidate) :
  In cand (enumerate constants_db) ->
  ~ In TARGET (operands cand)
  /\ In cand (enumerate (non_target constants_db)).
Proof.
  rewrite !enumerate_candidates, candidates_non_target.
  intros H. split; [|exact H].
  apply in_candidates in H. destruct cand as [c v | op c1 v1 c2 v2]; simpl.
  - intros [E | []]. apply (non_target_name _ _ H). exact E.
  - apply in_combinations in H. destruct H as (l1 & l2 & E & Hy).
    assert (H1 : In (c1, v1) (non_target constants_db)).
    { rewrite E. apply in_elt. }
    assert (H2 : In (c2, v2) (non_target constants_db)).
    { rewrite E. apply in_or_app. right. exact Hy. }
    intros [E1 | [E2 | []]].
    + apply (non_target_name _ _ H1). exact E1.
    + apply (non_target_name _ _ H2). exact E2.
Qed.





End Claims.

(** ** Operand order of the power candidates *)

Section PowerOrder.

Context {N : Numeric}.

Lemma NoDup_split_unique {A : Type} (x : A) (p q p' q' : list A) :
  NoDup (p ++ x :: q) -> p ++ x :: q = p' ++ x :: q' -> p = p' /\ q = q'.
Proof.
  revert p'. induction p as [|a p IH]; intros [|a' p'] ND E; simpl in *.
  - injection E as E. split; [reflexivity | exact E].
  - injection E as <- E. inversion ND as [|? ? Hx _]; subst.
    exfalso. apply Hx. apply in_elt.
  - injection E as -> E. inversion ND as [|? ? Hx _]; subst.
    exfalso. apply Hx. apply in_elt.
  - injection E as <- E. inversion ND as [|? ? _ ND']; subst.
    destruct (IH p' ND' E) as [-> ->]. split; reflexivity.
Qed.

Lemma NoDup_names_non_target (items : Table) :
  NoDup (map fst items) -> NoDup (map fst (non_target items)).
Proof.
  unfold non_target. induction items as [|[k v] rest IH]; simpl; intros ND.
  - constructor.
  - inversion ND as [|? ? Hk ND']; subst.
    destruct (String.eqb k TARGET); simpl; [apply IH; exact ND'|].
    constructor; [|apply IH; exact ND'].
    intros Hin. apply Hk. apply in_map_iff in Hin.
    destruct Hin as (kv & E & Hkv). apply filter_In in Hkv.
    apply in_map_iff. exists kv. split; [exact E | apply Hkv].
Qed.

Lemma non_target_keeps (items : Table) (k : string) (v : num) :
  k <> TARGET -> non_target ((k, v) :: items) = (k, v) :: non_target items.
Proof.
  intros H. unfold non_target; simpl.
  destruct (String.eqb_spec k TARGET); [contradiction | reflexivity].
Qed.

Lemma non_target_app (l1 l2 : Table) :
  non_target (l1 ++ l2) = non_target l1 ++ non_target l2.
Proof. apply filter_app. Qed.

(** C10: when [a] precedes [b] in the table and neither is the target, the
    scan builds [a ** b] and never builds [b ** a]. *)
Theorem power_operands_follow_table_order
    (constants_db l1 l2 l3 : Table) (a b : string) (va vb : num) :
  NoDup (map fst constants_db) ->
  constants_db = l1 ++ (a, va) :: l2 ++ (b, vb) :: l3 ->
  a <> TARGET ->
  b <> TARGET ->
  In (Bin Pow a b) (map symbolic_expr (enumerate constants_db))
  /\ ~ In (Bin Pow b a) (map symbolic_expr (enumerate constants_db)).
Proof.
  intros ND E Ha Hb.
  assert (Hab : a <> b).
  { intros ->. rewrite E, map_app in ND. cbn [map fst] in ND.
    rewrite map_app in ND. cbn [map fst] in ND.
    apply NoDup_remove_2 in ND.
    apply ND. apply in_or_app. right. apply in_or_app. right. left.
    reflexivity. }
  assert (Ent : non_target constants_db
                = non_target l1 ++ (a, va) :: non_target l2
                  ++ (b, vb) :: non_target l3).
  { rewrite E, non_target_app, (non_target_keeps _ _ _ Ha), non_target_app,
      (non_target_keeps _ _ _ Hb). reflexivity. }
  rewrite enumerate_candidates. split.
  - apply in_map_iff. exists (Cand2 Pow a va b vb). split; [reflexivity|].
    unfold candidates, operations; simpl. rewrite !in_app_iff.
    right. right. left. unfold binary_candidates. apply in_map_iff.
    exists ((a, va), (b, vb)). split; [reflexivity|].
    apply in_combinations. eexists _, _. split; [exact Ent|].
    right. apply in_elt.
  - intros Hin. apply in_map_iff in Hin. destruct Hin as (cand & Es & Hc).
    apply in_candidates in Hc.
    destruct cand as [c v | op c1 v1 c2 v2]; simpl in Es; [discriminate|].
    injection Es as -> -> ->.
    apply in_combinations in Hc. destruct Hc as (p & q & Ep & Hq).
    destruct Hq as [Hq | Hq]; [injection Hq as Hq _; congruence|].
    apply NoDup_names_non_target in ND.
    assert (E1 : map fst (non_target constants_db)
                 = (map fst (non_target l1) ++ a :: map fst (non_target l2))
                   ++ b :: map fst (non_target l3)).
    { rewrite Ent, <- app_assoc, !map_app. simpl. rewrite map_app. reflexivity. }
    assert (E2 : map fst (non_target constants_db) = map fst p ++ b :: map fst q).
    { rewrite Ep, map_app. reflexivity. }
    rewrite E1 in ND. rewrite E1 in E2.
    destruct (NoDup_split_unique _ _ _ _ _ ND E2) as [_ Eq].
    rewrite <- app_assoc in ND. simpl in ND. apply NoDup_remove_2 in ND.
    apply ND. apply in_or_app. right. apply in_or_app. right. right.
    rewrite Eq. apply in_map_iff. exists (a, v2). split; [reflexivity | exact Hq].
Qed.

End PowerOrder.

(** ** The search over exact real arithmetic *)

Section RealSearch.

Local Open Scope R_scope.

Local Abbreviation RCand1 := (@Cand1 RealNumeric).
Local Abbreviation RCand2 := (@Cand2 RealNumeric).

Lemma Rltb_true (x y : R) : Rltb x y = true <-> x < y.
Proof. unfold Rltb. destruct (Rlt_dec x y); split; intros; try lra; discriminate. Qed.

Lemma Rltb_false (x y : R) : Rltb x y = false <-> y <= x.
Proof. unfold Rltb. destruct (Rlt_dec x y); split; intros; try lra; discriminate. Qed.

#[export] Instance RealErrorOrder : ErrorOrder RealNumeric.
Proof.
  split; simpl.
  - intros a. apply Rltb_false. lra.
  - intros a b c. rewrite !Rltb_true. lra.
  - intros a b c. rewrite !Rltb_true. lra.
  - reflexivity.
  - discriminate.
Qed.

(** On the reals [Err_le] is the usual order. *)
Lemma Err_le_real (b e : R) : Err_le (Fin b) e = true <-> b <= e.
Proof.
  unfold Err_le; simpl. rewrite negb_true_iff. apply Rltb_false.
Qed.

Lemma Rabs_far (v t d : R) : v <= t - d \/ t + d <= v -> d <= Rabs (v - t).
Proof. unfold Rabs. destruct (Rcase_abs (v - t)); lra. Qed.

Lemma Rpower_2 (x : R) : 0 < x -> Rpower x 2 = x * x.
Proof.
  intros H. replace 2 with (1 + 1) by lra.
  rewrite Rpower_plus, (Rpower_1 x H). reflexivity.
Qed.

Lemma Rpower_3 (x : R) : 0 < x -> Rpower x 3 = x * x * x.
Proof.
  intros H. replace 3 with (2 + 1) by lra.
  rewrite Rpower_plus, (Rpower_1 x H), (Rpower_2 x H). reflexivity.
Qed.

Lemma Rpower_4 (x : R) : 0 < x -> Rpower x 4 = x * x * x * x.
Proof.
  intros H. replace 4 with (3 + 1) by lra.
  rewrite Rpower_plus, (Rpower_1 x H), (Rpower_3 x H). reflexivity.
Qed.

(** The enumeration order on the example table. *)
Lemma enumerate_constants_db :
  enumerate constants_db
  = [ Cand2 Add "C1" 1.618 "C1" 1.618; Cand2 Add "C1" 1.618 "C2" 2.718;
      Cand2 Add "C1" 1.618 "C3" 3.1415; Cand2 Add "C2" 2.718 "C2" 2.718;
      Cand2 Add "C2" 2.718 "C3" 3.1415; Cand2 Add "C3" 3.1415 "C3" 3.1415;
      Cand2 Mul "C1" 1.618 "C1" 1.618; Cand2 Mul "C1" 1.618 "C2" 2.718;
      Cand2 Mul "C1" 1.618 "C3" 3.1415; Cand2 Mul "C2" 2.718 "C2" 2.718;
      Cand2 Mul "C2" 2.718 "C3" 3.1415; Cand2 Mul "C3" 3.1415 "C3" 3.1415;
      Cand2 Pow "C1" 1.618 "C1" 1.618; Cand2 Pow "C1" 1.618 "C2" 2.718;
      Cand2 Pow "C1" 1.618 "C3" 3.1415; Cand2 Pow "C2" 2.718 "C2" 2.718;
      Cand2 Pow "C2" 2.718 "C3" 3.1415; Cand2 Pow "C3" 3.1415 "C3" 3.1415;
      Cand1 "C1" 1.618; Cand1 "C2" 2.718; Cand1 "C3" 3.1415 ].
Proof. rewrite enumerate_candidates. reflexivity. Qed.

Lemma enumerate_scenario_db :
  enumerate scenario_db
  = [ Cand2 Add "A" 2 "A" 2; Cand2 Mul "A" 2 "A" 2; Cand2 Pow "A" 2 "A" 2;
      Cand1 "A" 2 ].
Proof. rewrite enumerate_candidates. reflexivity. Qed.

(** Bounds on the power and square-root candidates of the example table. *)

Lemma pow_C1_C1 : Rpower 1.618 1.618 <= 9.
Proof.
  assert (H := Rpower_lt 1.618 1.618 2 ltac:(lra) ltac:(lra)).
  rewrite Rpower_2 in H by lra. lra.
Qed.

Lemma pow_C1_C2 : Rpower 1.618 2.718 <= 9.
Proof.
  assert (H := Rpower_lt 1.618 2.718 3 ltac:(lra) ltac:(lra)).
  rewrite Rpower_3 in H by lra. lra.
Qed.

Lemma pow_C1_C3 : Rpower 1.618 3.1415 <= 9.
Proof.
  assert (H := Rpower_lt 1.618 3.1415 4 ltac:(lra) ltac:(lra)).
  rewrite Rpower_4 in H by lra. lra.
Qed.

Lemma sqrt_C2_lower : 1.6 < R_sqrt.sqrt 2.718.
Proof.
  rewrite <- (sqrt_square 1.6) at 1 by lra.
  apply sqrt_lt_1; lra.
Qed.

Lemma pow_C2_C2 : 11 <= Rpower 2.718 2.718.
Proof.
  assert (H := Rpower_lt 2.718 (2 + / 2) 2.718 ltac:(lra) ltac:(lra)).
  rewrite Rpower_plus, Rpower_2, Rpower_sqrt in H by lra.
  assert (S := sqrt_C2_lower). lra.
Qed.

Lemma pow_C2_C3 : 11 <= Rpower 2.718 3.1415.
Proof.
  assert (H := Rpower_lt 2.718 3 3.1415 ltac:(lra) ltac:(lra)).
  rewrite Rpower_3 in H by lra. lra.
Qed.

Lemma pow_C3_C3 : 11 <= Rpower 3.1415 3.1415.
Proof.
  assert (H := Rpower_lt 3.1415 3 3.1415 ltac:(lra) ltac:(lra)).
  rewrite Rpower_3 in H by lra. lra.
Qed.

Lemma sqrt_below (x : R) : 1 < x -> x <= 9 -> R_sqrt.sqrt x <= 9.
Proof. intros H1 H9. assert (H := sqrt_less_alt x H1). lra. Qed.

Lemma C3_squared_error : Rabs (3.1415 * 3.1415 - 9.869) = 0.00002225.
Proof. unfold Rabs. destruct (Rcase_abs _); lra. Qed.

(** A value that misses the target by half a unit or more does not beat
    [C3 * C3]. *)
Lemma not_better_than_C3_squared (v : R) :
  v <= 9 \/ 11 <= v ->
  Rltb (Rabs (v - 9.869)) (Rabs (3.1415 * 3.1415 - 9.869)) = false.
Proof.
  intros H. apply Rltb_false. rewrite C3_squared_error.
  assert (B : 0.5 <= Rabs (v - 9.869)) by (apply Rabs_far; lra). lra.
Qed.

Lemma worse_than_C3_squared (v : R) :
  v <= 9 \/ 11 <= v ->
  Rltb (Rabs (3.1415 * 3.1415 - 9.869)) (Rabs (v - 9.869)) = true.
Proof.
  intros H. apply Rltb_true. rewrite C3_squared_error.
  assert (B : 0.5 <= Rabs (v - 9.869)) by (apply Rabs_far; lra). lra.
Qed.

(** The whole search on the example table. *)
Lemma search_constants_db :
  search constants_db
  = Ok (record_of (N := RealNumeric) 9.869 (Cand2 Mul "C3" 3.1415 "C3" 3.1415),
        flat_map (discovery_line (N := RealNumeric) 9.869)
                 (enumerate constants_db)).
Proof.
  rewrite (search_target (N := RealNumeric) constants_db 9.869 eq_refl).
  do 2 f_equal.
  rewrite enumerate_constants_db.
  apply (fold_update_first_min (N := RealNumeric) 9.869
           [ RCand2 Add "C1" 1.618 "C1" 1.618; RCand2 Add "C1" 1.618 "C2" 2.718;
             RCand2 Add "C1" 1.618 "C3" 3.1415; RCand2 Add "C2" 2.718 "C2" 2.718;
             RCand2 Add "C2" 2.718 "C3" 3.1415; RCand2 Add "C3" 3.1415 "C3" 3.1415;
             RCand2 Mul "C1" 1.618 "C1" 1.618; RCand2 Mul "C1" 1.618 "C2" 2.718;
             RCand2 Mul "C1" 1.618 "C3" 3.1415; RCand2 Mul "C2" 2.718 "C2" 2.718;
             RCand2 Mul "C2" 2.718 "C3" 3.1415 ]).
  - reflexivity.
  - intros c' H. cbn [In] in H.
    repeat (destruct H as [<- | H];
            [apply worse_than_C3_squared; simpl; lra|]).
    contradiction.
  - intros c' H. cbn [In] in H.
    destruct H as [<- | H]; [apply not_better_than_C3_squared; left; apply pow_C1_C1|].
    destruct H as [<- | H]; [apply not_better_than_C3_squared; left; apply pow_C1_C2|].
    destruct H as [<- | H]; [apply not_better_than_C3_squared; left; apply pow_C1_C3|].
    destruct H as [<- | H]; [apply not_better_than_C3_squared; right; apply pow_C2_C2|].
    destruct H as [<- | H]; [apply not_better_than_C3_squared; right; apply pow_C2_C3|].
    destruct H as [<- | H]; [apply not_better_than_C3_squared; right; apply pow_C3_C3|].
    repeat (destruct H as [<- | H];
            [apply not_better_than_C3_squared; left; apply sqrt_below; lra|]).
    contradiction.
Qed.

(** C1: on the example table the search ends with [C3 * C3] as best match,
    its error [|3.1415 * 3.1415 - 9.869|] is below the tolerance, and the
    scan printed it as a potential discovery. *)
Theorem example_best_match_is_C3_times_C3 :
  exists out,
    search constants_db
    = Ok ({| expr := Some (Bin Mul "C3" "C3");
             error := Fin (N := RealNumeric) (Rabs (3.1415 * 3.1415 - 9.869)) |},
          out)
    /\ Rabs (3.1415 * 3.1415 - 9.869) < 1e-3
    /\ In (PotentialDiscovery (N := RealNumeric) (Bin Mul "C3" "C3")
                              (Rabs (3.1415 * 3.1415 - 9.869))) out.
Proof.
  eexists. split; [apply search_constants_db|].
  split; [rewrite C3_squared_error; lra|].
  apply in_flat_map. exists (RCand2 Mul "C3" 3.1415 "C3" 3.1415). split.
  - rewrite enumerate_constants_db. do 11 right. left. reflexivity.
  - unfold discovery_line, err_of; simpl.
    replace (Rltb (Rabs (3.1415 * 3.1415 - 9.869)) 1e-3) with true.
    + left. reflexivity.
    + symmetry. apply Rltb_true. rewrite C3_squared_error. lra.
Qed.

(** The scenario target = 4.0, constants {A: 2.0}. *)

Lemma scenario_sum_error : Rabs (2 + 2 - 4) = 0.
Proof. replace (2 + 2 - 4) with 0 by lra. apply Rabs_R0. Qed.

Lemma scenario_product_error : Rabs (2 * 2 - 4) = 0.
Proof. replace (2 * 2 - 4) with 0 by lra. apply Rabs_R0. Qed.

Lemma search_scenario_db :
  search scenario_db
  = Ok (record_of (N := RealNumeric) 4 (RCand2 Add "A" 2 "A" 2),
        flat_map (discovery_line (N := RealNumeric) 4) (enumerate scenario_db)).
Proof.
  rewrite (search_target (N := RealNumeric) scenario_db 4 eq_refl).
  do 2 f_equal. rewrite enumerate_scenario_db.
  apply (fold_update_first_min (N := RealNumeric) 4 []).
  - reflexivity.
  - intros c' [].
  - intros c' _. apply Rltb_false. unfold err_of at 1; simpl.
    rewrite scenario_sum_error. apply Rabs_pos.
Qed.

Lemma scenario_product_flagged :
  In (PotentialDiscovery (N := RealNumeric) (Bin Mul "A" "A") 0)
     (flat_map (discovery_line (N := RealNumeric) 4) (enumerate scenario_db)).
Proof.
  apply in_flat_map. exists (RCand2 Mul "A" 2 "A" 2). split.
  - rewrite enumerate_scenario_db. right. left. reflexivity.
  - unfold discovery_line, err_of; simpl. rewrite scenario_product_error.
    replace (Rltb 0 1e-3) with true by (symmetry; apply Rltb_true; lra).
    left. reflexivity.
Qed.

(** C2 fails as stated: the scenario's final best match is [A + A], which
    reaches error 0 first, and not [A * A]. *)
Lemma scenario_best_match_is_not_A_times_A :
  exists best_match out,
    search scenario_db = Ok (best_match, out)
    /\ expr best_match = Some (Bin Add "A" "A")
    /\ expr best_match <> Some (Bin Mul "A" "A").
Proof.
  eexists _, _. split; [apply search_scenario_db|].
  split; [reflexivity | discriminate].
Qed.

(** C2, as the code has it: [A * A] has error 0 and is printed as a
    potential discovery, and the final best match is [A + A] with error 0,
    the first of the tied candidates. *)
Theorem scenario_best_match_is_A_plus_A :
  exists out,
    search scenario_db
    = Ok ({| expr := Some (Bin Add "A" "A");
             error := Fin (N := RealNumeric) 0 |}, out)
    /\ In (PotentialDiscovery (N := RealNumeric) (Bin Mul "A" "A") 0) out
    /\ Rabs (2 * 2 - 4) = 0.
Proof.
  eexists. split; [|split; [apply scenario_product_flagged
                           | apply scenario_product_error]].
  rewrite search_scenario_db. unfold record_of, err_of; simpl.
  rewrite scenario_sum_error. reflexivity.
Qed.

(** C3 fails as stated: the scenario table has a single non-target entry
    and the scan still visits binary candidates. *)
Lemma single_operand_has_binary_candidates :
  List.length (non_target scenario_db) = 1%nat
  /\ In (RCand2 Mul "A" 2 "A" 2) (enumerate scenario_db)
  /\ forallb is_unary (enumerate scenario_db) = false.
Proof.
  rewrite enumerate_scenario_db. split; [reflexivity|].
  split; [right; left; reflexivity | reflexivity].
Qed.

(** ** Instances of the general results on the tables above *)

(** The scenario table has the single operand [A]. *)
Lemma single_operand_enumeration_witness :
  non_target scenario_db = [("A", 2)]
  /\ enumerate scenario_db
     = [RCand2 Add "A" 2 "A" 2; RCand2 Mul "A" 2 "A" 2; RCand2 Pow "A" 2 "A" 2;
        RCand1 "A" 2].
Proof.
  split; [reflexivity|].
  exact (single_operand_enumeration scenario_db "A" 2 eq_refl).
Defined.

(** A table holding nothing but its target. *)
Lemma empty_operand_set_raises_witness :
  non_target target_only_db = []
  /\ main target_only_db
     = {| stdout := [SearchComplete; BestExpression None];
          raised := Some AttributeError;
          best := Some initial_best_match |}.
Proof.
  split; [reflexivity|].
  exact (empty_operand_set_raises target_only_db eq_refl).
Defined.

(** Minimality on the scenario table: over the reals the statement reads
    with the usual [<=]. *)
Lemma best_match_is_global_minimum_witness :
  getitem scenario_db TARGET = Ok 4
  /\ exists best_match out,
       search scenario_db = Ok (best_match, out)
       /\ forall cand, In cand (enumerate scenario_db) ->
             exists e, error best_match = Fin e
                       /\ e <= Rabs (numeric_val cand - 4).
Proof.
  split; [reflexivity|].
  destruct (best_match_is_global_minimum scenario_db 4 eq_refl)
    as (best_match & out & S & H).
  exists best_match, out. split; [exact S|].
  intros cand Hc. specialize (H cand Hc).
  destruct (error best_match) as [|e]; [discriminate H|].
  exists e. split; [reflexivity|]. apply Err_le_real. exact H.
Defined.

(** The tie-break on the scenario table, over the reals. *)
Lemma best_match_is_first_minimum_witness :
  getitem scenario_db TARGET = Ok 4
  /\ enumerate scenario_db
     = binary_candidates Add scenario_db ++ binary_candidates Mul scenario_db
       ++ binary_candidates Pow scenario_db ++ unary_candidates scenario_db
  /\ exists best_match out,
       search scenario_db = Ok (best_match, out)
       /\ ((best_match = initial_best_match
            /\ forall c, In c (enumerate scenario_db) ->
                         lt_inf (err_of 4 c) = false)
           \/ exists pre cand post,
                enumerate scenario_db = pre ++ cand :: post
                /\ best_match = record_of 4 cand
                /\ (forall c, In c pre ->
                       num_lt (err_of 4 cand) (err_of 4 c) = true)
                /\ (forall c, In c post ->
                       num_lt (err_of 4 c) (err_of 4 cand) = false)).
Proof.
  split; [reflexivity|].
  exact (best_match_is_first_minimum scenario_db 4 eq_refl).
Defined.

(** The discovery lines of the example table. *)
Lemma discovery_reported_iff_below_tolerance_witness :
  getitem constants_db TARGET = Ok 9.869
  /\ exists best_match,
       search constants_db
       = Ok (best_match,
             flat_map (discovery_line (N := RealNumeric) 9.869)
                      (enumerate constants_db)).
Proof.
  split; [reflexivity|].
  exact (proj2 (discovery_reported_iff_below_tolerance constants_db 9.869
                  eq_refl)).
Defined.

(** [C3 * C3] on the example table does not mention the target. *)
Lemma target_never_operand_witness :
  In (RCand2 Mul "C3" 3.1415 "C3" 3.1415) (enumerate constants_db)
  /\ ~ In TARGET (operands (RCand2 Mul "C3" 3.1415 "C3" 3.1415))
  /\ In (RCand2 Mul "C3" 3.1415 "C3" 3.1415)
        (enumerate (non_target constants_db)).
Proof.
  assert (H : In (RCand2 Mul "C3" 3.1415 "C3" 3.1415) (enumerate constants_db)).
  { rewrite enumerate_constants_db. do 11 right. left. reflexivity. }
  split; [exact H|].
  exact (target_never_operand constants_db _ H).
Defined.


(** On the example table [C2 ** C3] is enumerated and [C3 ** C2] is not. *)
Lemma power_operands_follow_table_order_witness :
  In (Bin Pow "C2" "C3") (map symbolic_expr (enumerate constants_db))
  /\ ~ In (Bin Pow "C3" "C2") (map symbolic_expr (enumerate constants_db)).
Proof.
  apply (power_operands_follow_table_order constants_db
           [("C1", 1.618)] [] [("TARGET", 9.869)] "C2" "C3" 2.718 3.1415).
  - simpl. repeat constructor; simpl; intuition discriminate.
  - reflexivity.
  - discriminate.
  - discriminate.
Defined.

End RealSearch.

(** ** The example's outcome does not depend on rounding

    The example is re-run with operations, table values and tolerance that
    are only known to lie within [1e-6] of the exact ones on the values the
    scan meets, as the results of floating-point evaluation do. *)

Section Rounding.

Local Open Scope R_scope.

Variables (add mul pow : R -> R -> R) (sq : R -> R) (dist : R -> R -> R).
Variables (tol c1 c2 c3 t : R).

Local Abbreviation operands3 := [c1; c2; c3].

Hypothesis add_close : forall x y,
    In x operands3 -> In y operands3 -> close 1e-6 (add x y) (x + y).
Hypothesis mul_close : forall x y,
    In x operands3 -> In y operands3 -> close 1e-6 (mul x y) (x * y).
Hypothesis pow_close : forall x y,
    In x operands3 -> In y operands3 -> close 1e-6 (pow x y) (Rpower x y).
Hypothesis sq_close : forall x,
    In x operands3 -> close 1e-6 (sq x) (R_sqrt.sqrt x).
Hypothesis dist_close : forall v,
    0 <= v <= 100 -> close 1e-6 (dist v t) (Rabs (v - t)).
Hypothesis tol_close : close 1e-6 tol 1e-3.
Hypothesis C1_close : close 1e-6 c1 1.618.
Hypothesis C2_close : close 1e-6 c2 2.718.
Hypothesis C3_close : close 1e-6 c3 3.1415.
Hypothesis T_close : close 1e-6 t 9.869.

Local Abbreviation FP := (RoundedNumeric add mul pow sq dist tol).
Local Abbreviation FCand1 := (@Cand1 FP).
Local Abbreviation FCand2 := (@Cand2 FP).
Local Abbreviation db :=
  ([("C1", c1); ("C2", c2); ("C3", c3); ("TARGET", t)] : @Table FP).

(** Exact values that stay clear of the target's neighbourhood. *)
Local Abbreviation far e := (1 <= e <= 9 \/ 11 <= e <= 99).

Lemma In_C1 : In c1 operands3.
Proof. left. reflexivity. Qed.

Lemma In_C2 : In c2 operands3.
Proof. right. left. reflexivity. Qed.

Lemma In_C3 : In c3 operands3.
Proof. right. right. left. reflexivity. Qed.

Lemma operand_range (x : R) : In x operands3 -> 1.6 <= x <= 3.2.
Proof.
  unfold close in *. simpl. intros [<- | [<- | [<- | []]]]; lra.
Qed.

Lemma rounded_best_error : dist (mul c3 c3) t <= 1e-4.
Proof.
  destruct (mul_close c3 c3 In_C3 In_C3) as [M1 M2].
  unfold close in *.
  assert (R : 0 <= mul c3 c3 <= 100) by nra.
  destruct (dist_close (mul c3 c3) R) as [_ H].
  assert (B : Rabs (mul c3 c3 - t) <= 5e-5).
  { apply Rabs_le. split; nra. }
  lra.
Qed.

Lemma rounded_far (v e : R) : close 1e-6 v e -> far e -> 0.5 <= dist v t.
Proof.
  intros Hv He. unfold close in *.
  assert (R : 0 <= v <= 100) by lra.
  destruct (dist_close v R) as [H _].
  assert (B : 0.6 <= Rabs (v - t)) by (apply Rabs_far; lra).
  lra.
Qed.

Lemma rounded_worse (v e : R) :
  close 1e-6 v e -> far e ->
  Rltb (dist (mul c3 c3) t) (dist v t) = true
  /\ Rltb (dist v t) (dist (mul c3 c3) t) = false.
Proof.
  intros Hv He. assert (F := rounded_far v e Hv He).
  assert (B := rounded_best_error).
  split; [apply Rltb_true | apply Rltb_false]; lra.
Qed.

Lemma Rpower_between (x y lo hi : R) :
  1 < x -> lo < y < hi ->
  Rpower x lo < Rpower x y < Rpower x hi.
Proof. intros Hx [H1 H2]. split; apply Rpower_lt; assumption. Qed.

Lemma rounded_sqrt_C2 : 1.6 < R_sqrt.sqrt c2.
Proof.
  rewrite <- (sqrt_square 1.6) at 1 by lra.
  unfold close in *. apply sqrt_lt_1; lra.
Qed.

Lemma far_sum (x y : R) : In x operands3 -> In y operands3 -> far (x + y).
Proof.
  intros Hx Hy. apply operand_range in Hx, Hy. left. lra.
Qed.

Lemma far_sqrt (x : R) : In x operands3 -> far (R_sqrt.sqrt x).
Proof.
  intros Hx. apply operand_range in Hx. left. split.
  - rewrite <- sqrt_1 at 1. apply sqrt_le_1; lra.
  - apply sqrt_below; lra.
Qed.

Lemma far_products :
  far (c1 * c1) /\ far (c1 * c2) /\ far (c1 * c3) /\ far (c2 * c2)
  /\ far (c2 * c3).
Proof. unfold close in *. repeat split; left; nra. Qed.

Lemma far_powers_C1 :
  far (Rpower c1 c1) /\ far (Rpower c1 c2) /\ far (Rpower c1 c3).
Proof.
  unfold close in *.
  assert (S : 0 <= c1 * c1 <= 2.62) by nra.
  assert (H1 := Rpower_between c1 c1 1 2 ltac:(lra) ltac:(lra)).
  assert (H2 := Rpower_between c1 c2 1 3 ltac:(lra) ltac:(lra)).
  assert (H3 := Rpower_between c1 c3 1 4 ltac:(lra) ltac:(lra)).
  rewrite Rpower_1, Rpower_2 in H1 by lra.
  rewrite Rpower_1, Rpower_3 in H2 by lra.
  rewrite Rpower_1, Rpower_4 in H3 by lra.
  replace (c1 * c1 * c1 * c1) with ((c1 * c1) * (c1 * c1)) in H3 by ring.
  assert (B3 : c1 * c1 * c1 <= 4.3) by nra.
  assert (B4 : (c1 * c1) * (c1 * c1) <= 6.9) by nra.
  repeat split; left; lra.
Qed.

Lemma far_powers_C2_C3 :
  far (Rpower c2 c2) /\ far (Rpower c2 c3) /\ far (Rpower c3 c3).
Proof.
  unfold close in *.
  assert (S2 : 7.38 <= c2 * c2 <= 7.39) by nra.
  assert (S3 : 9.86 <= c3 * c3 <= 9.87) by nra.
  assert (Q := rounded_sqrt_C2).
  assert (H1 := Rpower_between c2 c2 (2 + / 2) 3 ltac:(lra) ltac:(lra)).
  assert (H2 := Rpower_between c2 c3 3 4 ltac:(lra) ltac:(lra)).
  assert (H3 := Rpower_between c3 c3 3 4 ltac:(lra) ltac:(lra)).
  rewrite Rpower_plus, Rpower_2, Rpower_3, Rpower_sqrt in H1 by lra.
  rewrite Rpower_3, Rpower_4 in H2 by lra.
  rewrite Rpower_3, Rpower_4 in H3 by lra.
  replace (c2 * c2 * c2 * c2) with ((c2 * c2) * (c2 * c2)) in H2 by ring.
  replace (c3 * c3 * c3 * c3) with ((c3 * c3) * (c3 * c3)) in H3 by ring.
  assert (L1 : 11 <= c2 * c2 * R_sqrt.sqrt c2) by nra.
  assert (U1 : c2 * c2 * c2 <= 21) by nra.
  assert (U2 : (c2 * c2) * (c2 * c2) <= 55) by nra.
  assert (L3 : 30 <= c3 * c3 * c3) by nra.
  assert (U3 : (c3 * c3) * (c3 * c3) <= 98) by nra.
  repeat split; right; lra.
Qed.

Lemma rounded_enumerate :
  enumerate db
  = [ FCand2 Add "C1" c1 "C1" c1; FCand2 Add "C1" c1 "C2" c2;
      FCand2 Add "C1" c1 "C3" c3; FCand2 Add "C2" c2 "C2" c2;
      FCand2 Add "C2" c2 "C3" c3; FCand2 Add "C3" c3 "C3" c3;
      FCand2 Mul "C1" c1 "C1" c1; FCand2 Mul "C1" c1 "C2" c2;
      FCand2 Mul "C1" c1 "C3" c3; FCand2 Mul "C2" c2 "C2" c2;
      FCand2 Mul "C2" c2 "C3" c3; FCand2 Mul "C3" c3 "C3" c3;
      FCand2 Pow "C1" c1 "C1" c1; FCand2 Pow "C1" c1 "C2" c2;
      FCand2 Pow "C1" c1 "C3" c3; FCand2 Pow "C2" c2 "C2" c2;
      FCand2 Pow "C2" c2 "C3" c3; FCand2 Pow "C3" c3 "C3" c3;
      FCand1 "C1" c1; FCand1 "C2" c2; FCand1 "C3" c3 ].
Proof. rewrite enumerate_candidates. reflexivity. Qed.

(** Whatever the rounding, within the stated bounds, the search on the
    example table ends with [C3 * C3] and prints it as a discovery. *)
Lemma example_survives_rounding :
  exists out,
    search db
    = Ok ({| expr := Some (Bin Mul "C3" "C3");
             error := Fin (N := FP) (dist (mul c3 c3) t) |}, out)
    /\ In (PotentialDiscovery (N := FP) (Bin Mul "C3" "C3")
                              (dist (mul c3 c3) t)) out.
Proof.
  destruct far_products as (M11 & M12 & M13 & M22 & M23).
  destruct far_powers_C1 as (P11 & P12 & P13).
  destruct far_powers_C2_C3 as (P22 & P23 & P33).
  assert (In1 := In_C1). assert (In2 := In_C2). assert (In3 := In_C3).
  rewrite (search_target (N := FP) db t eq_refl).
  eexists. split.
  - do 2 f_equal. rewrite rounded_enumerate.
    apply (fold_update_first_min (N := FP) t
             [ FCand2 Add "C1" c1 "C1" c1; FCand2 Add "C1" c1 "C2" c2;
               FCand2 Add "C1" c1 "C3" c3; FCand2 Add "C2" c2 "C2" c2;
               FCand2 Add "C2" c2 "C3" c3; FCand2 Add "C3" c3 "C3" c3;
               FCand2 Mul "C1" c1 "C1" c1; FCand2 Mul "C1" c1 "C2" c2;
               FCand2 Mul "C1" c1 "C3" c3; FCand2 Mul "C2" c2 "C2" c2;
               FCand2 Mul "C2" c2 "C3" c3 ]).
    + reflexivity.
    + intros c' H. cbn [In] in H.
      do 6 (destruct H as [<- | H];
            [eapply rounded_worse;
             [apply add_close | apply far_sum]; assumption|]).
      do 5 (destruct H as [<- | H];
            [eapply rounded_worse;
             [apply mul_close | ]; assumption|]).
      contradiction.
    + intros c' H. cbn [In] in H.
      do 6 (destruct H as [<- | H];
            [eapply rounded_worse;
             [apply pow_close | ]; assumption|]).
      do 3 (destruct H as [<- | H];
            [eapply rounded_worse;
             [apply sq_close | apply far_sqrt]; assumption|]).
      contradiction.
  - apply in_flat_map. exists (FCand2 Mul "C3" c3 "C3" c3). split.
    + rewrite rounded_enumerate. do 11 right. left. reflexivity.
    + unfold discovery_line, err_of; simpl.
      replace (Rltb (dist (mul c3 c3) t) tol) with true.
      * left. reflexivity.
      * symmetry. apply Rltb_true. assert (B := rounded_best_error).
        unfold close in tol_close. lra.
Qed.

End Rounding.

(** The exact operations meet the bounds. *)
Lemma example_survives_rounding_exact :
  exists out,
    search constants_db
    = Ok ({| expr := Some (Bin Mul "C3" "C3");
             error := Fin (N := RealNumeric)
                          (Rabs (3.1415 * 3.1415 - 9.869)) |}, out)
    /\ In (PotentialDiscovery (N := RealNumeric) (Bin Mul "C3" "C3")
                              (Rabs (3.1415 * 3.1415 - 9.869))) out.
Proof.
  apply (example_survives_rounding Rplus Rmult Rpower R_sqrt.sqrt
           (fun a b => Rabs (a - b)) 1e-3 1.618 2.718 3.1415 9.869);
    unfold close; intros; lra.
Qed.

(** * Further properties of the search *)

(** ** Size and content of the candidate space *)

Section EnumerationFacts.

Context {N : Numeric}.

Lemma length_combinations {A : Type} (l : list A) :
  2 * List.length (combinations_with_replacement_2 l)
  = List.length l * (List.length l + 1).
Proof.
  induction l as [|x l IH]; [reflexivity|].
  change (combinations_with_replacement_2 (x :: l))
    with (map (pair x) (x :: l) ++ combinations_with_replacement_2 l).
  rewrite length_app, length_map. simpl List.length. lia.
Qed.

(** X1: with [n] entries other than the target the scan evaluates
    [3 * n * (n + 1) / 2 + n] candidates: one per binary operator and
    unordered pair, self-pairs included, and one square root per entry. *)
Theorem enumerate_length (constants_db : Table) :
  let n := List.length (non_target constants_db) in
  2 * List.length (enumerate constants_db) = 3 * (n * (n + 1)) + 2 * n.
Proof.
  intros n. rewrite enumerate_order. unfold binary_candidates, unary_candidates.
  rewrite !length_app, !length_map.
  assert (H := length_combinations (non_target constants_db)).
  fold n in H |- *. lia.
Qed.

Lemma in_non_target (items : Table) (k : string) (v : num) :
  In (k, v) (non_target items) <-> In (k, v) items /\ k <> TARGET.
Proof.
  unfold non_target. rewrite filter_In. simpl.
  destruct (String.eqb_spec k TARGET); split; intros [H1 H2];
    (split; [exact H1|]); try discriminate; try assumption; try reflexivity.
  contradiction.
Qed.

(** A split of the filtered table comes from a split of the table. *)
Lemma non_target_split (items p q : Table) (x : string * num) :
  non_target items = p ++ x :: q ->
  exists p' q', items = p' ++ x :: q'
                /\ non_target p' = p /\ non_target q' = q.
Proof.
  revert p. induction items as [|[k v] rest IH]; intros p E.
  - destruct p; discriminate.
  - unfold non_target in E; simpl in E.
    destruct (String.eqb k TARGET) eqn:Ek; simpl in E.
    + destruct (IH p E) as (p' & q' & -> & Hp & Hq).
      exists ((k, v) :: p'), q'. repeat split; [|exact Hq].
      unfold non_target; simpl. rewrite Ek. exact Hp.
    + destruct p as [|y p]; simpl in E.
      * injection E as <- E. exists [], rest. repeat split. exact E.
      * injection E as <- E. destruct (IH p E) as (p' & q' & -> & Hp & Hq).
        exists ((k, v) :: p'), q'. repeat split; [|exact Hq].
        unfold non_target; simpl. rewrite Ek. simpl. f_equal. exact Hp.
Qed.

Lemma in_enumerate_pair (constants_db : Table) (op : BinaryOp)
    (a b : string) (va vb : num) :
  In (Cand2 op a va b vb) (enumerate constants_db)
  <-> In ((a, va), (b, vb))
         (combinations_with_replacement_2 (non_target constants_db)).
Proof.
  split.
  - rewrite enumerate_candidates. intros H.
    apply in_candidates in H. exact H.
  - intros H. rewrite enumerate_order, !in_app_iff.
    assert (Hop : In (Cand2 op a va b vb) (binary_candidates op constants_db)).
    { unfold binary_candidates. apply in_map_iff.
      exists ((a, va), (b, vb)). split; [reflexivity | exact H]. }
    destruct op; tauto.
Qed.

(** X2: a binary candidate [op(a, b)] is evaluated exactly when neither
    operand is the target and [a]'s entry stands in the table at the
    position of [b]'s entry or before it. *)
Theorem binary_candidate_enumerated_iff (constants_db : Table) (op : BinaryOp)
    (a b : string) (va vb : num) :
  In (Cand2 op a va b vb) (enumerate constants_db)
  <-> a <> TARGET /\ b <> TARGET
      /\ exists l1 l2, constants_db = l1 ++ (a, va) :: l2
                       /\ In (b, vb) ((a, va) :: l2).
Proof.
  rewrite in_enumerate_pair, in_combinations. split.
  - intros (p & q & E & Hb).
    assert (Ha : In (a, va) (non_target constants_db)).
    { rewrite E. apply in_elt. }
    assert (Hb' : In (b, vb) (non_target constants_db)).
    { rewrite E. apply in_or_app. right. exact Hb. }
    apply in_non_target in Ha, Hb'.
    destruct (non_target_split _ _ _ _ E) as (p' & q' & E' & _ & Hq).
    repeat split; [apply Ha | apply Hb' |].
    exists p', q'. split; [exact E'|].
    destruct Hb as [Hb | Hb]; [left; exact Hb | right].
    rewrite <- Hq in Hb. apply in_non_target in Hb. apply Hb.
  - intros (Ha & Hb & l1 & l2 & E & Hin).
    exists (non_target l1), (non_target l2). split.
    + rewrite E, non_target_app, (non_target_keeps _ _ _ Ha). reflexivity.
    + destruct Hin as [Hin | Hin]; [left; exact Hin | right].
      apply in_non_target. split; assumption.
Qed.

(** X3: the square root of an entry is evaluated exactly when the entry is
    in the table and is not the target. *)
Theorem unary_candidate_enumerated_iff (constants_db : Table)
    (a : string) (v : num) :
  In (Cand1 a v) (enumerate constants_db)
  <-> In (a, v) constants_db /\ a <> TARGET.
Proof.
  rewrite <- in_non_target. split.
  - rewrite enumerate_candidates. intros H.
    apply in_candidates in H. exact H.
  - intros H. rewrite enumerate_order, !in_app_iff. right. right. right.
    unfold unary_candidates. apply in_map_iff.
    exists (a, v). split; [reflexivity | exact H].
Qed.

Lemma NoDup_map_injective {A B : Type} (f : A -> B) (l : list A) :
  (forall x y, f x = f y -> x = y) -> NoDup l -> NoDup (map f l).
Proof.
  intros Hf. induction 1 as [|x l Hx _ IH]; simpl; constructor; [|exact IH].
  intros Hin. apply in_map_iff in Hin. destruct Hin as (y & E & Hy).
  apply Hf in E. subst y. contradiction.
Qed.

Lemma map_combinations {A B : Type} (f : A -> B) (l : list A) :
  combinations_with_replacement_2 (map f l)
  = map (fun p => (f (fst p), f (snd p))) (combinations_with_replacement_2 l).
Proof.
  induction l as [|x l IH]; [reflexivity|].
  change (combinations_with_replacement_2 (x :: l))
    with (map (pair x) (x :: l) ++ combinations_with_replacement_2 l).
  change (combinations_with_replacement_2 (map f (x :: l)))
    with (map (pair (f x)) (map f (x :: l))
          ++ combinations_with_replacement_2 (map f l)).
  rewrite map_app, IH, !map_map. reflexivity.
Qed.

(** The iterator repeats no pair when its input repeats no element. *)
Lemma NoDup_combinations {A : Type} (l : list A) :
  NoDup l -> NoDup (combinations_with_replacement_2 l).
Proof.
  induction 1 as [|x l Hx ND IH]; [constructor|].
  change (combinations_with_replacement_2 (x :: l))
    with (map (pair x) (x :: l) ++ combinations_with_replacement_2 l).
  apply NoDup_app.
  - apply NoDup_map_injective; [intros y z E; congruence|].
    constructor; assumption.
  - exact IH.
  - intros [y z] H1 H2. apply in_map_iff in H1. destruct H1 as (w & E & _).
    injection E as <- _. apply in_combinations in H2.
    destruct H2 as (l1 & l2 & -> & _). apply Hx. apply in_elt.
Qed.

Lemma binary_candidates_exprs (op : BinaryOp) (items : Table) :
  map symbolic_expr (binary_candidates op items)
  = map (fun q => Bin op (fst q) (snd q))
        (combinations_with_replacement_2 (map fst (non_target items))).
Proof.
  unfold binary_candidates. rewrite map_combinations, !map_map. reflexivity.
Qed.

Lemma unary_candidates_exprs (items : Table) :
  map symbolic_expr (unary_candidates items)
  = map Sqrt (map fst (non_target items)).
Proof. unfold unary_candidates. rewrite !map_map. reflexivity. Qed.

(** X4: when the names of the table are pairwise different, as the keys of
    a dict are, no expression is built twice during a scan. *)
Theorem no_expression_evaluated_twice (constants_db : Table) :
  NoDup (map fst constants_db) ->
  NoDup (map symbolic_expr (enumerate constants_db)).
Proof.
  intros ND. apply NoDup_names_non_target in ND.
  assert (NDc := NoDup_combinations _ ND).
  assert (Hb : forall op,
             NoDup (map symbolic_expr (binary_candidates op constants_db))).
  { intros op. rewrite binary_candidates_exprs.
    apply NoDup_map_injective; [|exact NDc].
    intros [x1 y1] [x2 y2] E. simpl in E. congruence. }
  assert (Hu : NoDup (map symbolic_expr (unary_candidates constants_db))).
  { rewrite unary_candidates_exprs.
    apply NoDup_map_injective; [intros x y E; congruence | exact ND]. }
  assert (Hin : forall op e,
             In e (map symbolic_expr (binary_candidates op constants_db)) ->
             exists a b, e = Bin op a b).
  { intros op e H. rewrite binary_candidates_exprs in H.
    apply in_map_iff in H. destruct H as (q & <- & _). eauto. }
  assert (Hsq : forall e,
             In e (map symbolic_expr (unary_candidates constants_db)) ->
             exists a, e = Sqrt a).
  { intros e H. rewrite unary_candidates_exprs in H.
    apply in_map_iff in H. destruct H as (a & <- & _). eauto. }
  rewrite enumerate_order, !map_app.
  repeat apply NoDup_app; auto.
  - intros e H1 H2. apply Hin in H1. destruct H1 as (a & b & ->).
    apply Hsq in H2. destruct H2 as (c & H2). discriminate.
  - intros e H1 H2. apply Hin in H1. destruct H1 as (a & b & ->).
    apply in_app_iff in H2. destruct H2 as [H2 | H2].
    + apply Hin in H2. destruct H2 as (c & d & H2). discriminate.
    + apply Hsq in H2. destruct H2 as (c & H2). discriminate.
  - intros e H1 H2. apply Hin in H1. destruct H1 as (a & b & ->).
    rewrite !in_app_iff in H2. destruct H2 as [H2 | [H2 | H2]].
    + apply Hin in H2. destruct H2 as (c & d & H2). discriminate.
    + apply Hin in H2. destruct H2 as (c & d & H2). discriminate.
    + apply Hsq in H2. destruct H2 as (c & H2). discriminate.
Qed.

End EnumerationFacts.

(** ** The best-match record and the printed lines *)

Section ScanFacts.

Context {N : Numeric}.

Lemma fold_update_some (target : num) (cands : list Candidate)
    (best_match : BestMatch) :
  expr best_match <> None ->
  expr (fold_left (update target) cands best_match) <> None.
Proof.
  revert best_match. induction cands as [|c cands IH]; intros bm H; simpl;
    [exact H|].
  apply IH. unfold update. destruct (lt_best _ _); [discriminate | exact H].
Qed.

(** The record leaves its initial value as soon as one candidate's error is
    below [float('inf')], and only then. *)
Lemma fold_update_found (target : num) (cands : list Candidate) :
  expr (fold_left (update target) cands initial_best_match) <> None
  <-> exists c, In c cands /\ lt_inf (err_of target c) = true.
Proof.
  induction cands as [|c cands IH]; simpl.
  - split; [intros H; contradiction H; reflexivity | intros (c & [] & _)].
  - unfold update at 2; simpl. destruct (lt_inf (err_of target c)) eqn:Hc.
    + split; [intros _; exists c; split; [left; reflexivity | exact Hc]|].
      intros _. apply fold_update_some. discriminate.
    + rewrite IH. split; intros (c' & Hin & Hc').
      * exists c'. split; [right; exact Hin | exact Hc'].
      * destruct Hin as [<- | Hin]; [congruence|].
        exists c'. split; assumption.
Qed.

(** Scanning further candidates keeps the record or replaces it by one of
    strictly smaller error. *)
Lemma fold_update_decreases `{!ErrorOrder N} (target : num)
    (cands : list Candidate) (best_match : BestMatch) :
  fold_left (update target) cands best_match = best_match
  \/ exists c, In c cands
               /\ fold_left (update target) cands best_match = record_of target c
               /\ lt_best (err_of target c) (error best_match) = true.
Proof.
  revert best_match. induction cands as [|c cands IH]; intros bm; simpl.
  - left. reflexivity.
  - destruct (IH (update target bm c)) as [E | (c' & Hin & E & Hlt)];
      rewrite E; unfold update in *;
      destruct (lt_best (err_of target c) (error bm)) eqn:Hc.
    + right. exists c. repeat split; [left; reflexivity | exact Hc].
    + left. reflexivity.
    + right. exists c'. repeat split; [right; exact Hin|].
      simpl in Hlt. destruct (error bm) as [|e]; simpl in *.
      * exact (lt_inf_below _ _ Hlt Hc).
      * exact (lt_trans _ _ _ Hlt Hc).
    + right. exists c'. repeat split; [right; exact Hin | exact Hlt].
Qed.

(** X5: the record only improves and the output only grows.  Whatever
    prefix of the enumeration has been scanned, the final record is the one
    held at that point or a later candidate of strictly smaller error, and
    the final output is the output at that point followed by the discovery
    lines of the remaining candidates. *)
Theorem best_match_improves_monotonically `{!ErrorOrder N}
    (constants_db : Table) (target : num) (pre post : list Candidate) :
  getitem constants_db TARGET = Ok target ->
  enumerate constants_db = pre ++ post ->
  exists best1 out1 best2 out2,
    run_body (check constants_db) pre (initial_best_match, [])
    = Ok (best1, out1)
    /\ search constants_db = Ok (best2, out2)
    /\ out2 = out1 ++ flat_map (discovery_line target) post
    /\ (best2 = best1
        \/ exists cand, In cand post
                        /\ best2 = record_of target cand
                        /\ lt_best (err_of target cand) (error best1) = true).
Proof.
  intros G E.
  rewrite (run_check_target _ _ _ _ _ G), (search_target _ _ G), E.
  eexists _, _, _, _. split; [reflexivity|]. split; [reflexivity|].
  split; [simpl; apply flat_map_app|].
  rewrite fold_left_app. apply fold_update_decreases.
Qed.

Lemma discovery_lines_nonempty (target : num) (cands : list Candidate) :
  flat_map (discovery_line target) cands <> []
  <-> exists c, In c cands /\ num_lt (err_of target c) tolerance = true.
Proof.
  induction cands as [|c cands IH]; simpl.
  - split; [intros H; contradiction H; reflexivity | intros (c & [] & _)].
  - unfold discovery_line at 1.
    destruct (num_lt (err_of target c) tolerance) eqn:Hc; simpl.
    + split; [intros _; exists c; split; [left; reflexivity | exact Hc]
             | intros _; discriminate].
    + rewrite IH. split; intros (c' & Hin & Hc').
      * exists c'. split; [right; exact Hin | exact Hc'].
      * destruct Hin as [<- | Hin]; [congruence|].
        exists c'. split; assumption.
Qed.

(** X6: some discovery is printed during the scan exactly when the final
    best match itself is within the tolerance, and in that case the best
    match is among the printed discoveries. *)
Theorem discovery_printed_iff_best_within_tolerance `{!ErrorOrder N}
    (constants_db : Table) (target : num) :
  getitem constants_db TARGET = Ok target ->
  lt_inf tolerance = true ->
  exists best_match out,
    search constants_db = Ok (best_match, out)
    /\ (out <> [] <->
        exists e, error best_match = Fin e /\ num_lt e tolerance = true)
    /\ (forall x e, expr best_match = Some x -> error best_match = Fin e ->
                    num_lt e tolerance = true ->
                    In (PotentialDiscovery x e) out).
Proof.
  intros G Htol. rewrite (search_target _ _ G).
  eexists _, _. split; [reflexivity|].
  destruct (fold_update_characterised target (enumerate constants_db))
    as [[E Hall] | (pre & c & post & El & E & Hinf & Hpre & Hpost)];
    rewrite E; simpl.
  - split; [split|].
    + intros H. apply discovery_lines_nonempty in H.
      destruct H as (c & Hin & Hc).
      specialize (Hall c Hin).
      rewrite (lt_inf_below _ _ Hc Htol) in Hall. discriminate.
    + intros (e & H & _). discriminate.
    + intros x e H. discriminate.
  - assert (Hin : In c (enumerate constants_db)).
    { rewrite El. apply in_elt. }
    split; [split|].
    + intros H. apply discovery_lines_nonempty in H.
      destruct H as (c' & Hin' & Hc'). exists (err_of target c).
      split; [reflexivity|]. rewrite El in Hin'. apply in_app_iff in Hin'.
      destruct Hin' as [H | [<- | H]].
      * exact (lt_trans _ _ _ (Hpre c' H) Hc').
      * exact Hc'.
      * destruct (lt_cotrans _ _ (err_of target c) Hc') as [H' | H'];
          [rewrite (Hpost c' H) in H'; discriminate | exact H'].
    + intros (e & He & Hlt). injection He as <-.
      apply discovery_lines_nonempty. exists c. split; assumption.
    + intros x e Hx He Hlt. injection Hx as <-. injection He as <-.
      apply in_flat_map. exists c. split; [exact Hin|].
      unfold discovery_line. rewrite Hlt. left. reflexivity.
Qed.

End ScanFacts.

(** ** Outcomes of a whole run *)

Section RunFacts.

Context {N : Numeric}.

Lemma getitem_raise_not_in (items : Table) (key : string) (e : Exn) :
  getitem items key = Raise e -> ~ In key (map fst items).
Proof.
  induction items as [|[k v] rest IH]; simpl; intros H; [tauto|].
  destruct (String.eqb_spec k key); [discriminate|].
  intros [E | Hin]; [contradiction | exact (IH H Hin)].
Qed.

Lemma non_target_all (items : Table) :
  ~ In TARGET (map fst items) -> non_target items = items.
Proof.
  unfold non_target. induction items as [|[k v] rest IH]; simpl; intros H;
    [reflexivity|].
  destruct (String.eqb_spec k TARGET); simpl.
  - exfalso. apply H. left. assumption.
  - f_equal. apply IH. intros Hin. apply H. right. exact Hin.
Qed.

Lemma enumerate_nonempty (items : Table) :
  non_target items <> [] -> enumerate items <> [].
Proof.
  intros H E. rewrite enumerate_order in E.
  repeat (apply app_eq_nil in E; destruct E as [_ E]).
  unfold unary_candidates in E. apply map_eq_nil in E. contradiction.
Qed.

(** X7: a table that has entries but no TARGET key stops the run with
    KeyError at the first candidate, before anything is printed and before
    any best match is recorded. *)
Theorem missing_target_raises_KeyError (constants_db : Table) (e : Exn) :
  getitem constants_db TARGET = Raise e ->
  constants_db <> [] ->
  search constants_db = Raise KeyError
  /\ main constants_db
     = {| stdout := []; raised := Some KeyError; best := None |}.
Proof.
  intros G Hne.
  assert (S : search constants_db = Raise KeyError).
  { rewrite (search_no_target _ _ G).
    destruct (enumerate constants_db) eqn:E; [|reflexivity].
    exfalso. revert E. apply enumerate_nonempty.
    rewrite (non_target_all _ (getitem_raise_not_in _ _ _ G)). exact Hne. }
  split; [exact S|]. unfold main. rewrite S. reflexivity.
Qed.

Lemma getitem_in (items : Table) (k : string) (v : num) :
  NoDup (map fst items) -> In (k, v) items -> getitem items k = Ok v.
Proof.
  induction items as [|[k' v'] rest IH]; simpl; intros ND Hin; [contradiction|].
  inversion ND as [|? ? Hk ND']; subst.
  destruct Hin as [E | Hin].
  - injection E as -> ->. rewrite String.eqb_refl. reflexivity.
  - destruct (String.eqb_spec k' k) as [-> | _]; [|apply IH; assumption].
    exfalso. apply Hk. apply in_map_iff. exists (k, v). split; [reflexivity|].
    exact Hin.
Qed.

Lemma getitem_key (items : Table) (k : string) :
  In k (map fst items) -> exists v, getitem items k = Ok v.
Proof.
  induction items as [|[k' v'] rest IH]; simpl; intros Hin; [contradiction|].
  destruct (String.eqb_spec k' k) as [_ | Hne]; [eauto|].
  destruct Hin as [E | Hin]; [contradiction | exact (IH Hin)].
Qed.

(** Line 267 passes [evalf] the entries of the symbols in the expression:
    looking one of them up there is looking it up in the table. *)
Lemma getitem_restrict (items : Table) (e : Expr) (k : string) :
  In k (free_symbols e) -> getitem (restrict items e) k = getitem items k.
Proof.
  intros Hk. unfold restrict.
  induction items as [|[k' v'] rest IH]; simpl; [reflexivity|].
  destruct (String.eqb_spec k' k) as [-> | Hne].
  - assert (H : existsb (String.eqb k) (free_symbols e) = true).
    { apply existsb_exists. exists k. split; [exact Hk|].
      apply String.eqb_refl. }
    rewrite H. simpl. rewrite String.eqb_refl. reflexivity.
  - destruct (existsb (String.eqb k') (free_symbols e)); simpl; [|exact IH].
    destruct (String.eqb_spec k' k); [contradiction | exact IH].
Qed.

(** The entries a candidate was built from are entries of the table. *)
Lemma candidate_operands_in_table (items : Table) (cand : Candidate) :
  In cand (enumerate items) ->
  match cand with
  | Cand1 c v => In (c, v) items
  | Cand2 _ c1 v1 c2 v2 => In (c1, v1) items /\ In (c2, v2) items
  end.
Proof.
  rewrite enumerate_candidates. intros H. apply in_candidates in H.
  assert (Hnt : forall kv, In kv (non_target items) -> In kv items).
  { intros kv Hkv. unfold non_target in Hkv. apply filter_In in Hkv. apply Hkv. }
  destruct cand as [c v | op c1 v1 c2 v2]; [apply Hnt; exact H|].
  apply in_combinations in H. destruct H as (l1 & l2 & E & Hy).
  split; apply Hnt; rewrite E; [apply in_elt | apply in_or_app; right; exact Hy].
Qed.

Lemma evalf_restrict (items : Table) (e : Expr) :
  evalf e (restrict items e) = evalf e items.
Proof.
  destruct e as [c | op c1 c2]; simpl.
  - rewrite getitem_restrict by (left; reflexivity). reflexivity.
  - rewrite !getitem_restrict
      by (simpl; auto). reflexivity.
Qed.

(** With pairwise different names the report's re-evaluation gives the
    value the scan computed. *)
Lemma evalf_candidate (items : Table) (cand : Candidate) :
  NoDup (map fst items) ->
  In cand (enumerate items) ->
  evalf (symbolic_expr cand) (restrict items (symbolic_expr cand))
  = Ok (numeric_val cand).
Proof.
  intros ND H. rewrite evalf_restrict.
  apply candidate_operands_in_table in H.
  destruct cand as [c v | op c1 v1 c2 v2]; simpl.
  - rewrite (getitem_in _ _ _ ND H). reflexivity.
  - destruct H as [H1 H2].
    rewrite (getitem_in _ _ _ ND H1), (getitem_in _ _ _ ND H2). reflexivity.
Qed.

Lemma evalf_candidate_returns (items : Table) (cand : Candidate) :
  In cand (enumerate items) ->
  exists v, evalf (symbolic_expr cand) (restrict items (symbolic_expr cand))
            = Ok v.
Proof.
  intros H. rewrite evalf_restrict.
  apply candidate_operands_in_table in H.
  assert (Hk : forall k v, In (k, v) items -> exists v', getitem items k = Ok v').
  { intros k v Hin. apply getitem_key. apply in_map_iff.
    exists (k, v). split; [reflexivity | exact Hin]. }
  destruct cand as [c v | op c1 v1 c2 v2]; simpl.
  - destruct (Hk _ _ H) as (v' & ->). simpl. eauto.
  - destruct H as [H1 H2].
    destruct (Hk _ _ H1) as (v1' & ->). destruct (Hk _ _ H2) as (v2' & ->).
    simpl. eauto.
Qed.

(** A run that ends without exception had a TARGET entry and met a
    candidate whose error is below [float('inf')]. *)
Lemma completed_run_found (constants_db : Table) :
  raised (main constants_db) = None ->
  exists target,
    getitem constants_db TARGET = Ok target
    /\ exists c, In c (enumerate constants_db)
                 /\ lt_inf (err_of target c) = true.
Proof.
  unfold main.
  destruct (getitem constants_db TARGET) as [target | e] eqn:G.
  - rewrite (search_target _ _ G). intros H. exists target.
    split; [reflexivity|]. apply fold_update_found.
    intros E. unfold report in H. rewrite E in H. discriminate.
  - rewrite (search_no_target _ _ G).
    destruct (enumerate constants_db); intros H; discriminate.
Qed.

(** X8: whenever a run on a table with pairwise different names ends
    without exception, it has printed the discovery lines, then the best
    expression, then the value of that expression re-evaluated from the
    table, which is the value the scan computed for it, and the error
    printed last is the distance of that value from the target. *)
Theorem completed_run_report (constants_db : Table) :
  NoDup (map fst constants_db) ->
  raised (main constants_db) = None ->
  exists target cand,
    getitem constants_db TARGET = Ok target
    /\ In cand (enumerate constants_db)
    /\ stdout (main constants_db)
       = flat_map (discovery_line target) (enumerate constants_db)
         ++ [SearchComplete;
             BestExpression (Some (symbolic_expr cand));
             EvaluatesTo (numeric_val cand);
             ComparedTo target (Fin (abs_sub (numeric_val cand) target))]
    /\ best (main constants_db) = Some (record_of target cand).
Proof.
  intros ND H. destruct (completed_run_found _ H) as (target & G & Hex).
  exists target. unfold main. rewrite (search_target _ _ G).
  apply fold_update_found in Hex.
  destruct (fold_update_cases target (enumerate constants_db)
              initial_best_match) as [E | (c & Hin & E)];
    rewrite E in *; [contradiction Hex; reflexivity|].
  exists c. split; [exact G|]. split; [exact Hin|].
  unfold report, record_of; simpl.
  rewrite (evalf_candidate _ _ ND Hin), G, <- app_assoc.
  split; reflexivity.
Qed.

(** X9: a run ends without exception only if the table has a TARGET entry
    and the scan meets a candidate whose error is below [float('inf')]: a
    table that lacks either always stops the run with an exception. *)
Theorem run_completes_only_if (constants_db : Table) :
  raised (main constants_db) = None ->
  (exists target, getitem constants_db TARGET = Ok target)
  /\ enumerate constants_db <> []
  /\ exists target c,
       getitem constants_db TARGET = Ok target
       /\ In c (enumerate constants_db)
       /\ lt_inf (err_of target c) = true.
Proof.
  intros H. destruct (completed_run_found _ H) as (target & G & c & Hin & Hc).
  split; [exists target; exact G|].
  split; [intros E; rewrite E in Hin; contradiction|].
  exists target, c. repeat split; assumption.
Qed.

End RunFacts.

(** ** How the result depends on the table *)

Section TableFacts.

Context {N : Numeric}.

Lemma enumerate_non_target_eq (t1 t2 : Table) :
  non_target t1 = non_target t2 -> enumerate t1 = enumerate t2.
Proof.
  intros H. rewrite !enumerate_order.
  unfold binary_candidates, unary_candidates. rewrite H. reflexivity.
Qed.

Lemma getitem_non_target (items : Table) (k : string) :
  k <> TARGET -> getitem (non_target items) k = getitem items k.
Proof.
  unfold non_target. generalize TARGET as T. intros T Hk.
  induction items as [|[k' v'] rest IH]; simpl; [reflexivity|].
  destruct (String.eqb_spec k' T) as [-> | _]; simpl.
  - destruct (String.eqb_spec T k); [congruence | exact IH].
  - destruct (String.eqb k' k); [reflexivity | exact IH].
Qed.

Lemma candidate_symbols_non_target (items : Table) (cand : Candidate) :
  In cand (enumerate items) ->
  forall k, In k (free_symbols (symbolic_expr cand)) -> k <> TARGET.
Proof.
  rewrite enumerate_candidates. intros H. apply in_candidates in H.
  destruct cand as [c v | op c1 v1 c2 v2]; simpl.
  - intros k [<- | []]. exact (non_target_name _ _ H).
  - apply in_combinations in H. destruct H as (l1 & l2 & E & Hy).
    assert (H1 : In (c1, v1) (non_target items)) by (rewrite E; apply in_elt).
    assert (H2 : In (c2, v2) (non_target items)).
    { rewrite E. apply in_or_app. right. exact Hy. }
    intros k [<- | [<- | []]];
      [exact (non_target_name _ _ H1) | exact (non_target_name _ _ H2)].
Qed.

Lemma evalf_non_target (items : Table) (e : Expr) :
  (forall k, In k (free_symbols e) -> k <> TARGET) ->
  evalf e (non_target items) = evalf e items.
Proof.
  intros H. destruct e as [c | op c1 c2]; simpl in *.
  - rewrite getitem_non_target by (apply H; auto). reflexivity.
  - rewrite !getitem_non_target by (apply H; auto). reflexivity.
Qed.

(** X10: only the entries other than the target, in their order, and the
    target's value matter: two tables that agree on them, wherever their
    TARGET entry stands, give the same search result and the same run. *)
Theorem target_position_irrelevant (t1 t2 : Table) (target : num) :
  non_target t1 = non_target t2 ->
  getitem t1 TARGET = Ok target ->
  getitem t2 TARGET = Ok target ->
  search t1 = search t2 /\ main t1 = main t2.
Proof.
  intros Hnt G1 G2.
  assert (S : search t1 = search t2).
  { rewrite (search_target _ _ G1), (search_target _ _ G2),
      (enumerate_non_target_eq _ _ Hnt). reflexivity. }
  split; [exact S|]. unfold main. rewrite <- S, (search_target _ _ G1).
  destruct (fold_update_cases target (enumerate t1) initial_best_match)
    as [E | (c & Hin & E)]; rewrite E; [reflexivity|].
  unfold report, record_of; simpl.
  assert (Hs := candidate_symbols_non_target _ _ Hin).
  rewrite !evalf_restrict.
  rewrite <- (evalf_non_target t1), <- (evalf_non_target t2), Hnt, G1, G2
    by exact Hs.
  reflexivity.
Qed.

Lemma enumerate_app_incl (items extra : Table) (cand : Candidate) :
  In cand (enumerate items) -> In cand (enumerate (items ++ extra)).
Proof.
  rewrite !enumerate_order, !in_app_iff.
  unfold binary_candidates, unary_candidates.
  rewrite non_target_app.
  assert (Hc : forall p,
             In p (combinations_with_replacement_2 (non_target items)) ->
             In p (combinations_with_replacement_2
                     (non_target items ++ non_target extra))).
  { intros [x y] H. apply in_combinations in H.
    destruct H as (l1 & l2 & E & Hy). apply in_combinations.
    exists l1, (l2 ++ non_target extra). split.
    - rewrite E, <- app_assoc. reflexivity.
    - destruct Hy as [Hy | Hy]; [left; exact Hy|].
      right. apply in_or_app. left. exact Hy. }
  rewrite !in_map_iff.
  intros [H | [H | [H | H]]]; destruct H as (p & E & Hp);
    [left | right; left | right; right; left | right; right; right];
    exists p; (split; [exact E|]); auto.
  apply in_or_app. left. exact Hp.
Qed.

Lemma getitem_app (items extra : Table) (k : string) (v : num) :
  getitem items k = Ok v -> getitem (items ++ extra) k = Ok v.
Proof.
  induction items as [|[k' v'] rest IH]; simpl; [discriminate|].
  destruct (String.eqb k' k); [tauto | exact IH].
Qed.

(** X11: appending entries to a table that has its target keeps every
    candidate in the search space, so the best error cannot get worse:
    the best error on the extended table is not above the best error on
    the original one. *)
Theorem more_constants_never_worse `{!ErrorOrder N}
    (constants_db extra : Table) (target : num) :
  getitem constants_db TARGET = Ok target ->
  exists best1 out1 best2 out2,
    search constants_db = Ok (best1, out1)
    /\ search (constants_db ++ extra) = Ok (best2, out2)
    /\ (forall cand, In cand (enumerate constants_db) ->
                     In cand (enumerate (constants_db ++ extra)))
    /\ (forall e1, error best1 = Fin e1 ->
                   exists e2, error best2 = Fin e2 /\ num_lt e1 e2 = false).
Proof.
  intros G. assert (G' := getitem_app _ extra _ _ G).
  rewrite (search_target _ _ G), (search_target _ _ G').
  eexists _, _, _, _. split; [reflexivity|]. split; [reflexivity|].
  split; [intros cand; apply enumerate_app_incl|].
  intros e1 He1.
  destruct (fold_update_characterised target (enumerate constants_db))
    as [[E _] | (pre & c & post & El & E & Hinf & _ & _)];
    rewrite E in He1; [discriminate|].
  injection He1 as <-.
  assert (Hin : In c (enumerate (constants_db ++ extra))).
  { apply enumerate_app_incl. rewrite El. apply in_elt. }
  destruct (fold_update_characterised target
              (enumerate (constants_db ++ extra)))
    as [[_ Hall] | (pre' & c' & post' & El' & E' & _ & Hpre' & Hpost')].
  - rewrite (Hall c Hin) in Hinf. discriminate.
  - rewrite E'. exists (err_of target c'). split; [reflexivity|].
    rewrite El' in Hin. apply in_app_iff in Hin.
    destruct Hin as [H | [<- | H]].
    + apply lt_asym. apply Hpre'. exact H.
    + apply lt_irrefl.
    + apply Hpost'. exact H.
Qed.

End TableFacts.

(** ** Instances of the further properties *)

Section RealInstances.

Local Open Scope R_scope.

Local Abbreviation RCand1 := (@Cand1 RealNumeric).
Local Abbreviation RCand2 := (@Cand2 RealNumeric).

Lemma NoDup_constants_db : NoDup (map fst constants_db).
Proof. simpl. repeat constructor; simpl; intuition discriminate. Qed.

(** The 21 expressions of the example table are pairwise different. *)
Lemma no_expression_evaluated_twice_witness :
  NoDup (map fst constants_db)
  /\ NoDup (map symbolic_expr (enumerate constants_db)).
Proof.
  split; [exact NoDup_constants_db|].
  exact (no_expression_evaluated_twice constants_db NoDup_constants_db).
Defined.

(** The example table, cut after its six sums. *)
Lemma best_match_improves_monotonically_witness :
  getitem constants_db TARGET = Ok 9.869
  /\ exists best1 out1 best2 out2,
       run_body (check constants_db)
                (binary_candidates Add constants_db) (initial_best_match, [])
       = Ok (best1, out1)
       /\ search constants_db = Ok (best2, out2)
       /\ out2
          = out1
            ++ flat_map (discovery_line (N := RealNumeric) 9.869)
                 (binary_candidates Mul constants_db
                  ++ binary_candidates Pow constants_db
                  ++ unary_candidates constants_db)
       /\ (best2 = best1
           \/ exists cand,
                In cand (binary_candidates Mul constants_db
                         ++ binary_candidates Pow constants_db
                         ++ unary_candidates constants_db)
                /\ best2 = record_of 9.869 cand
                /\ lt_best (err_of 9.869 cand) (error best1) = true).
Proof.
  split; [reflexivity|].
  exact (best_match_improves_monotonically constants_db 9.869
           (binary_candidates Add constants_db)
           (binary_candidates Mul constants_db
            ++ binary_candidates Pow constants_db
            ++ unary_candidates constants_db)
           eq_refl (enumerate_order constants_db)).
Defined.

Lemma tolerance_finite : @lt_inf RealNumeric (@tolerance RealNumeric) = true.
Proof. reflexivity. Qed.

(** Discoveries and best match on the example table. *)
Lemma discovery_printed_iff_best_within_tolerance_witness :
  getitem constants_db TARGET = Ok 9.869
  /\ @lt_inf RealNumeric (@tolerance RealNumeric) = true
  /\ exists best_match out,
       search constants_db = Ok (best_match, out)
       /\ (out <> [] <->
           exists e, error best_match = Fin e /\ num_lt e tolerance = true)
       /\ (forall x e, expr best_match = Some x -> error best_match = Fin e ->
                       num_lt e tolerance = true ->
                       In (PotentialDiscovery x e) out).
Proof.
  split; [reflexivity|]. split; [reflexivity|].
  exact (discovery_printed_iff_best_within_tolerance constants_db 9.869
           eq_refl tolerance_finite).
Defined.

(** A table of two constants without a target. *)
Lemma missing_target_raises_KeyError_witness :
  getitem no_target_db TARGET = Raise KeyError
  /\ no_target_db <> []
  /\ search no_target_db = Raise KeyError
  /\ main no_target_db
     = {| stdout := []; raised := Some KeyError; best := None |}.
Proof.
  split; [reflexivity|]. split; [discriminate|].
  apply (missing_target_raises_KeyError no_target_db KeyError);
    [reflexivity | discriminate].
Defined.

Lemma main_constants_db_completes : raised (main constants_db) = None.
Proof. unfold main. rewrite search_constants_db. reflexivity. Qed.

(** The complete run on the example table. *)
Lemma completed_run_report_witness :
  NoDup (map fst constants_db)
  /\ raised (main constants_db) = None
  /\ exists target cand,
       getitem constants_db TARGET = Ok target
       /\ In cand (enumerate constants_db)
       /\ stdout (main constants_db)
          = flat_map (discovery_line (N := RealNumeric) target)
                     (enumerate constants_db)
            ++ [SearchComplete;
                BestExpression (Some (symbolic_expr cand));
                EvaluatesTo (numeric_val cand);
                ComparedTo target (Fin (Rabs (numeric_val cand - target)))]
       /\ best (main constants_db) = Some (record_of target cand).
Proof.
  split; [exact NoDup_constants_db|].
  split; [exact main_constants_db_completes|].
  exact (completed_run_report constants_db NoDup_constants_db
           main_constants_db_completes).
Defined.

(** The example table has its target and candidates of finite error. *)
Lemma run_completes_only_if_witness :
  raised (main constants_db) = None
  /\ (exists target, getitem constants_db TARGET = Ok target)
  /\ enumerate constants_db <> []
  /\ exists target c,
       getitem constants_db TARGET = Ok target
       /\ In c (enumerate constants_db)
       /\ @lt_inf RealNumeric (err_of target c) = true.
Proof.
  split; [exact main_constants_db_completes|].
  exact (run_completes_only_if constants_db main_constants_db_completes).
Defined.

(** The example table with its target moved to the front. *)
Lemma target_position_irrelevant_witness :
  non_target constants_db
  = non_target [("TARGET", 9.869); ("C1", 1.618); ("C2", 2.718); ("C3", 3.1415)]
  /\ search constants_db
     = search [("TARGET", 9.869); ("C1", 1.618); ("C2", 2.718); ("C3", 3.1415)]
  /\ main constants_db
     = main [("TARGET", 9.869); ("C1", 1.618); ("C2", 2.718); ("C3", 3.1415)].
Proof.
  split; [reflexivity|].
  exact (target_position_irrelevant constants_db
           [("TARGET", 9.869); ("C1", 1.618); ("C2", 2.718); ("C3", 3.1415)]
           9.869 eq_refl eq_refl eq_refl).
Defined.

(** The scenario table with a constant [B] appended. *)
Lemma more_constants_never_worse_witness :
  getitem scenario_db TARGET = Ok 4
  /\ exists best1 out1 best2 out2,
       search scenario_db = Ok (best1, out1)
       /\ search (scenario_db ++ [("B", 3)]) = Ok (best2, out2)
       /\ (forall cand, In cand (enumerate scenario_db) ->
                        In cand (enumerate (scenario_db ++ [("B", 3)])))
       /\ (forall e1, error best1 = Fin e1 ->
                      exists e2, error best2 = Fin e2 /\ e2 <= e1).
Proof.
  split; [reflexivity|].
  destruct (more_constants_never_worse scenario_db [("B", 3)] 4 eq_refl)
    as (best1 & out1 & best2 & out2 & S1 & S2 & Hincl & H).
  exists best1, out1, best2, out2. repeat split; try assumption.
  intros e1 He1. destruct (H e1 He1) as (e2 & He2 & Hle).
  exists e2. split; [exact He2 | apply Rltb_false; exact Hle].
Defined.

End RealInstances.
